(** * Ship Scores browse page: lazy inspection cache, tree flags and search

    A shallow embedding of [shipScores.js]:
    - the lazy per-vessel inspection cache ([__InspectionCache],
      [loadInspectionHistoryForVessel], [fetchIncidentsWithFallback]),
    - the open/visible flags of the two-level [<details>] tree together with
      the [toggle] listeners installed by [setupLiners] and [setupShips],
    - the search filter [applyFilter].

    Modelling conventions.
    - A JavaScript string is a Rocq [string]; every [ascii] stands for one
      UTF-16 code unit below 256 (the Latin-1 range), on which [trim],
      [toLowerCase] and [indexOf] are embedded exactly.
    - A promise is identified by its index in the promise heap
      ([promises]); object identity of promises is equality of indices.
    - The browser runs every handler to completion: one [Event] is one
      task together with the micro-tasks and [toggle] events it causes.
    - [Date.parse] depends on the engine and on the local time zone; it is
      an operation of the [Host] interface.
    - The score of an incident is [null], [undefined], the empty string or a
      Number that is a safe integer (magnitude at most 2^53 - 1), [NaN],
      [Infinity] or [-Infinity]; on these [Number], [isFinite] and [String]
      are embedded exactly. Numbers with a fractional part or beyond the safe
      range, and scores that are non-empty strings, are not represented. *)

From Stdlib Require Import ZArith Ascii String List Bool Lia Sorting.Sorted Sorting.Permutation.
From stdpp Require Import base option gmap strings list.

Local Open Scope string_scope.
Local Open Scope Z_scope.

(** ** JavaScript string primitives (Latin-1 code units) *)

Module Js.

(** [WhiteSpace] and [LineTerminator] code units below 256: TAB, LF, VT, FF,
    CR, SP and NBSP. These are what [String.prototype.trim] removes. *)
Definition isWhiteSpace (c : ascii) : bool :=
  let n := N_of_ascii c in
  ((9 <=? n) && (n <=? 13) || (n =? 32) || (n =? 160))%N.

Fixpoint trimStart (s : string) : string :=
  match s with
  | EmptyString => EmptyString
  | String c r => if isWhiteSpace c then trimStart r else s
  end.

Fixpoint trimEnd (s : string) : string :=
  match s with
  | EmptyString => EmptyString
  | String c r =>
      match trimEnd r with
      | EmptyString => if isWhiteSpace c then EmptyString else String c EmptyString
      | r' => String c r'
      end
  end.

(** [s.trim()] *)
Definition trim (s : string) : string := trimEnd (trimStart s).

(** Simple case mapping of one code unit below 256: A-Z and the Latin-1
    capitals U+00C0..U+00DE (except the multiplication sign U+00D7). *)
Definition toLowerChar (c : ascii) : ascii :=
  let n := N_of_ascii c in
  if ((65 <=? n) && (n <=? 90) || (192 <=? n) && (n <=? 222) && negb (n =? 215))%N
  then ascii_of_N (n + 32) else c.

(** [s.toLowerCase()] *)
Fixpoint toLowerCase (s : string) : string :=
  match s with
  | EmptyString => EmptyString
  | String c r => String (toLowerChar c) (toLowerCase r)
  end.

Fixpoint startsWith (s q : string) : bool :=
  match q, s with
  | EmptyString, _ => true
  | String _ _, EmptyString => false
  | String b q', String a s' => if Ascii.eqb a b then startsWith s' q' else false
  end.

Fixpoint indexOfFrom (i : Z) (s q : string) : Z :=
  if startsWith s q then i
  else match s with
       | EmptyString => -1
       | String _ r => indexOfFrom (i + 1) r q
       end.

(** [s.indexOf(q)]: the first position where [q] occurs in [s], or [-1]. *)
Definition indexOf (s q : string) : Z := indexOfFrom 0 s q.

(** Truthiness of a string: only the empty string is falsy. *)
Definition truthy (s : string) : bool :=
  match s with EmptyString => false | _ => true end.

(** [s.slice(0, n)] for [0 <= n]. *)
Fixpoint sliceTo (n : nat) (s : string) : string :=
  match n, s with
  | O, _ => EmptyString
  | S _, EmptyString => EmptyString
  | S n', String c r => String c (sliceTo n' r)
  end.

(** [a < b] on strings: lexicographic order on code units. *)
Fixpoint ltb (a b : string) : bool :=
  match a, b with
  | _, EmptyString => false
  | EmptyString, String _ _ => true
  | String x a', String y b' =>
      if (N_of_ascii x <? N_of_ascii y)%N then true
      else if (N_of_ascii y <? N_of_ascii x)%N then false
      else ltb a' b'
  end.

(** The decimal digits of an integer [n]; this is [String(n)] when [n] is a
    safe integer. *)
Fixpoint digitsOfPos (fuel : nat) (n : Z) (acc : string) : string :=
  match fuel with
  | O => acc
  | S f =>
      let d := String (ascii_of_N (48 + Z.to_N (n mod 10))) acc in
      if n <? 10 then d else digitsOfPos f (n / 10) d
  end.

Definition stringOfInt (n : Z) : string :=
  if n <? 0
  then String "-" (digitsOfPos (S (Z.to_nat (Z.log2 (- n)))) (- n) EmptyString)
  else digitsOfPos (S (Z.to_nat (Z.log2 n))) n EmptyString.

(** [Number.isSafeInteger(n)] for an integer [n]: the integers that are
    Number values with no other integer rounding to them. *)
Definition isSafeInteger (n : Z) : bool := Z.abs n <=? 9007199254740991.

(** The Number values of the model: a safe integer ([-0] is [Integer 0]:
    both print as ["0"]), [NaN], [Infinity] and [-Infinity]. *)
Inductive Number :=
| Integer (n : Z) (safe : isSafeInteger n = true)
| NaN
| Infinity (negative : bool).

(** [isFinite(n)] *)
Definition isFinite (n : Number) : bool :=
  match n with
  | Integer _ _ => true
  | NaN => false
  | Infinity _ => false
  end.

(** [String(n)] *)
Definition stringOfNumber (n : Number) : string :=
  match n with
  | Integer z _ => stringOfInt z
  | NaN => "NaN"
  | Infinity false => "Infinity"
  | Infinity true => "-Infinity"
  end.

End Js.

(** ** Calendar arithmetic behind [Date.UTC] and the [getUTC*] accessors *)

Module JsDate.

Definition msPerDay : Z := 86400000.

(** Day number (days since 1970-01-01) of the first day of month [m0]
    (0-based, 0..11) of year [y] in the proleptic Gregorian calendar. *)
Definition dayOfMonthStart (y m0 : Z) : Z :=
  let y' := if m0 <? 2 then y - 1 else y in
  let era := y' / 400 in
  let yoe := y' - era * 400 in
  let mp := (m0 + 10) mod 12 in
  let doy := (153 * mp + 2) / 5 in
  era * 146097 + (yoe * 365 + yoe / 4 - yoe / 100 + doy) - 719468.

(** [MakeDay(year, month, date)] of ECMAScript: months beyond 0..11 carry
    into the year, days beyond the month's length carry into the next. *)
Definition MakeDay (year month date : Z) : Z :=
  dayOfMonthStart (year + month / 12) (month mod 12) + date - 1.

(** [Date.UTC(year, month, date)]: a year in 0..99 means 1900 + year.
    ([TimeClip], which turns a time beyond 8.64e15 ms into [NaN], is left
    out: five years before a valid current time is a valid time, but for the
    first five years of the range.) *)
Definition UTC (year month date : Z) : Z :=
  let yr := if (0 <=? year) && (year <=? 99) then 1900 + year else year in
  MakeDay yr month date * msPerDay.

(** Civil date [(year, month0, day)] of a day number. *)
Definition civilOfDay (z : Z) : Z * Z * Z :=
  let z' := z + 719468 in
  let era := z' / 146097 in
  let doe := z' - era * 146097 in
  let yoe := (doe - doe / 1460 + doe / 36524 - doe / 146096) / 365 in
  let doy := doe - (365 * yoe + yoe / 4 - yoe / 100) in
  let mp := (5 * doy + 2) / 153 in
  let d := doy - (153 * mp + 2) / 5 + 1 in
  let m0 := if mp <? 10 then mp + 2 else mp - 10 in
  let y := yoe + era * 400 + (if m0 <? 2 then 1 else 0) in
  (y, m0, d).

Definition getUTCFullYear (t : Z) : Z := fst (fst (civilOfDay (t / msPerDay))).
Definition getUTCMonth (t : Z) : Z := snd (fst (civilOfDay (t / msPerDay))).
Definition getUTCDate (t : Z) : Z := snd (civilOfDay (t / msPerDay)).

End JsDate.

(** ** The host interface *)

(** [Date_parse s] is [Date.parse(s)]: [Some ms] for a time value, [None]
    for [NaN]. Which strings parse, and to what, is up to the engine. *)
Class Host := { Date_parse : string -> option Z }.

(** ** Detail rows and their formatting *)

(** A row as rendered: [{date, score}]. *)
Record DetailRow := { date : string; score : string }.

(** The value of [ethi_inspectionscore] in a row of the answer: [null], no
    such property, the empty string, or a Number. *)
Inductive ScoreValue :=
| ScoreNull
| ScoreUndefined
| ScoreEmptyString
| ScoreNumber (n : Js.Number).

(** One incident of the OData answer. [ethi_inspectionenddateandtime] is a
    string or [null]. *)
Record Incident := {
  ethi_inspectionenddateandtime : option string;
  ethi_inspectionscore : ScoreValue
}.

(** What [doOdataGet] resolves with: an array of rows (an entry may be
    [null]), an object whose [value] may be such an array, or anything
    else. *)
Inductive ODataAnswer :=
| AnswerArray (l : list (option Incident))
| AnswerObject (value : option (list (option Incident)))
| AnswerOther.

Definition odataToArray (dataOrRows : ODataAnswer) : list (option Incident) :=
  match dataOrRows with
  | AnswerArray l => l
  | AnswerObject (Some l) => l
  | AnswerObject None => []
  | AnswerOther => []
  end.

Definition dateOnly (isoDateTime : string) : string :=
  if (10 <=? String.length isoDateTime)%nat then Js.sliceTo 10 isoDateTime else isoDateTime.

(** [formatScore(v)]: [Number(v)] of a Number is [v] itself. *)
Definition formatScore (v : ScoreValue) : string :=
  match v with
  | ScoreNull | ScoreUndefined | ScoreEmptyString => ""
  | ScoreNumber n =>
      if Js.isFinite n then Js.stringOfNumber n ++ "/100" else Js.stringOfNumber n
  end.

(** [isWithinLastYears(isoDateTime, years)] at the moment [now]
    ([new Date()], in milliseconds since the epoch). *)
Definition isWithinLastYears `{Host} (isoDateTime : option string) (years : Z) (now : Z) : bool :=
  match isoDateTime with
  | None => false
  | Some iso =>
      if negb (Js.truthy iso) then false
      else match Date_parse iso with
           | None => false
           | Some dtMs =>
               let y := if years =? 0 then 5 else years in
               let cutoffUtcMs :=
                 JsDate.UTC (JsDate.getUTCFullYear now - y) (JsDate.getUTCMonth now)
                            (JsDate.getUTCDate now) in
               cutoffUtcMs <=? dtMs
           end
  end.

Definition isBrace (c : ascii) : bool :=
  (Ascii.eqb c "{" || Ascii.eqb c "}")%char.

(** [s.replace(/[{}]/g, "")] *)
Fixpoint stripBraces (s : string) : string :=
  match s with
  | EmptyString => EmptyString
  | String c r => if isBrace c then stripBraces r else String c (stripBraces r)
  end.

(** [normalizeGuid(g)]; [None] stands for [null] or [undefined]. *)
Definition normalizeGuid (g : option string) : string :=
  stripBraces (Js.trim (default "" g)).


(** ** The lazy inspection cache *)

(** A cache entry
    [{ loaded:boolean, loading:boolean, rows:[{date,score}], promise:Promise }];
    [promise] is [None] where the object literal has no such property. *)
Record CacheEntry := {
  loaded : bool;
  loading : bool;
  rows : list DetailRow;
  promise : option nat
}.

(** The two shapes a load resolves with: [{rows}] and [{rows, error: true}]. *)
Inductive LoadResult :=
| Rows (r : list DetailRow)
| RowsError (r : list DetailRow).

Inductive PromiseState :=
| Pending
| Fulfilled (v : LoadResult)
| Rejected.

(** One [doOdataGet] issued by [fetchIncidentsWithFallback]: the vessel, whether
    the URL used the [guid'...'] literal (first try) or the raw GUID (retry
    after HTTP 400), the promise [p] of the load it belongs to, and whether
    the answer is still outstanding. *)
Record Request := {
  req_vessel : string;
  req_guidLiteral : bool;
  req_promise : nat;
  req_pending : bool
}.

(** How a [doOdataGet] settles: resolved with data, or rejected with an
    error carrying an HTTP [status]. *)
Inductive HttpOutcome :=
| HttpOk (data : ODataAnswer)
| HttpFail (status : Z).

(** ** The tree of liners and ships *)

(** A [details.browse-tree__ship]: the text of its summary, its
    [data-vessel-id] attribute, its [open] flag; [ship_visible] is
    [style.display !== "none"]. *)
Record Ship := {
  ship_label : string;
  ship_vessel_id : option string;
  ship_open : bool;
  ship_visible : bool
}.

(** A [details.browse-tree__liner] with the ships below it. *)
Record Liner := {
  liner_label : string;
  liner_open : bool;
  liner_visible : bool;
  liner_ships : list Ship
}.

(** ** The page state *)

Record State := {
  tree : list Liner;
  (** the counters last handed to [setStatusText] *)
  tally : nat * nat;
  __InspectionCache : gmap string CacheEntry;
  promises : list PromiseState;
  requests : list Request;
  (** vessel ids for which [fetchIncidentsWithFallback] was called, in order *)
  fetchLog : list string
}.

Definition initState (t : list Liner) : State :=
  {| tree := t; tally := (0%nat, 0%nat); __InspectionCache := ∅;
     promises := []; requests := []; fetchLog := [] |}.

Definition setTree (t : list Liner) (s : State) : State :=
  {| tree := t; tally := tally s; __InspectionCache := __InspectionCache s;
     promises := promises s; requests := requests s; fetchLog := fetchLog s |}.

Definition setTally (n : nat * nat) (s : State) : State :=
  {| tree := tree s; tally := n; __InspectionCache := __InspectionCache s;
     promises := promises s; requests := requests s; fetchLog := fetchLog s |}.

(** [Promise.resolve(v)]: a new promise, already fulfilled. *)
Definition promiseResolve (v : LoadResult) (s : State) : nat * State :=
  (length (promises s),
   {| tree := tree s; tally := tally s; __InspectionCache := __InspectionCache s;
      promises := promises s ++ [Fulfilled v];
      requests := requests s; fetchLog := fetchLog s |}).

(** The path of [loadInspectionHistoryForVessel] that starts a fetch:
    [fetchIncidentsWithFallback(vesselId)] issues the first GET, the chain
    [.then(..).catch(..)] is the new pending promise [p], and the entry
    [{ loaded: false, loading: true, rows: [], promise: p }] is stored. *)
Definition startFetch (vesselId : string) (s : State) : nat * State :=
  let p := length (promises s) in
  (p,
   {| tree := tree s; tally := tally s;
      __InspectionCache :=
        <[vesselId := {| loaded := false; loading := true; rows := []; promise := Some p |}]>
          (__InspectionCache s);
      promises := promises s ++ [Pending];
      requests := requests s ++
        [{| req_vessel := vesselId; req_guidLiteral := true; req_promise := p; req_pending := true |}];
      fetchLog := fetchLog s ++ [vesselId] |}).

Definition loadInspectionHistoryForVessel (vesselIdRaw : option string) (s : State) : nat * State :=
  let vesselId := normalizeGuid vesselIdRaw in
  if negb (Js.truthy vesselId) then promiseResolve (Rows []) s
  else
    let c := __InspectionCache s !! vesselId in
    match c with
    | Some e =>
        if loaded e then promiseResolve (Rows (rows e)) s
        else match loading e, promise e with
             | true, Some p => (p, s)
             | _, _ => startFetch vesselId s
             end
    | None => startFetch vesselId s
    end.

(** *** Settling a request *)

(** The body of [rows.forEach] in the success handler: rows without an end
    date or older than five years are skipped, the others are pushed as
    [{date, score}]. *)
Definition pushRow `{Host} (now : Z) (outRows : list DetailRow) (r : option Incident) : list DetailRow :=
  let iso := match r with Some r' => ethi_inspectionenddateandtime r' | None => None end in
  match r, iso with
  | Some r', Some isoStr =>
      if negb (Js.truthy isoStr) then outRows
      else if negb (isWithinLastYears iso 5 now) then outRows
      else outRows ++ [{| date := dateOnly isoStr; score := formatScore (ethi_inspectionscore r') |}]
  | _, _ => outRows
  end.

(** The comparator of [outRows.sort]: newest date first. *)
Definition compareRows (a b : DetailRow) : Z :=
  if Js.ltb (date a) (date b) then 1
  else if Js.ltb (date b) (date a) then -1 else 0.

(** [Array.prototype.sort] is stable; with a comparator that is a total
    preorder its result is that of a stable insertion sort. *)
Fixpoint insertRow (x : DetailRow) (l : list DetailRow) : list DetailRow :=
  match l with
  | [] => [x]
  | y :: l' => if 0 <? compareRows x y then y :: insertRow x l' else x :: l
  end.

Definition sortRows (l : list DetailRow) : list DetailRow :=
  fold_right insertRow [] l.

Definition buildOutRows `{Host} (now : Z) (dataOrRows : ODataAnswer) : list DetailRow :=
  sortRows (fold_left (pushRow now) (odataToArray dataOrRows) []).

Definition settlePromise (p : nat) (v : LoadResult) (e : CacheEntry) (vesselId : string) (s : State) : State :=
  {| tree := tree s; tally := tally s;
     __InspectionCache := <[vesselId := e]> (__InspectionCache s);
     promises := <[p := Fulfilled v]> (promises s);
     requests := requests s; fetchLog := fetchLog s |}.

(** The [.then] handler of the chain. *)
Definition onLoaded `{Host} (now : Z) (vesselId : string) (p : nat) (dataOrRows : ODataAnswer) (s : State) : State :=
  let outRows := buildOutRows now dataOrRows in
  settlePromise p (Rows outRows)
    {| loaded := true; loading := false; rows := outRows; promise := None |} vesselId s.

(** The [.catch] handler of the chain. *)
Definition onFailed (vesselId : string) (p : nat) (s : State) : State :=
  settlePromise p (RowsError [])
    {| loaded := false; loading := false; rows := []; promise := None |} vesselId s.

Definition setRequests (rs : list Request) (s : State) : State :=
  {| tree := tree s; tally := tally s; __InspectionCache := __InspectionCache s;
     promises := promises s; requests := rs; fetchLog := fetchLog s |}.

Definition answered (r : Request) : Request :=
  {| req_vessel := req_vessel r; req_guidLiteral := req_guidLiteral r;
     req_promise := req_promise r; req_pending := false |}.

(** Request [k] settles with [outcome] at time [now]. A rejection with
    status 400 of the first try makes [fetchIncidentsWithFallback] issue the
    second GET (raw GUID); every other outcome runs the [.then] or the
    [.catch] handler of the chain. *)
Definition httpSettled `{Host} (k : nat) (outcome : HttpOutcome) (now : Z) (s : State) : State :=
  match requests s !! k with
  | Some r =>
      if negb (req_pending r) then s
      else
        let s1 := setRequests (<[k := answered r]> (requests s)) s in
        match outcome with
        | HttpOk data => onLoaded now (req_vessel r) (req_promise r) data s1
        | HttpFail st =>
            if req_guidLiteral r && (st =? 400)
            then setRequests (requests s1 ++
                   [{| req_vessel := req_vessel r; req_guidLiteral := false;
                       req_promise := req_promise r; req_pending := true |}]) s1
            else onFailed (req_vessel r) (req_promise r) s1
        end
  | None => s
  end.

(** ** Toggle listeners *)

Definition setShipOpen (b : bool) (ship : Ship) : Ship :=
  {| ship_label := ship_label ship; ship_vessel_id := ship_vessel_id ship;
     ship_open := b; ship_visible := ship_visible ship |}.

Definition setShipVisible (b : bool) (ship : Ship) : Ship :=
  {| ship_label := ship_label ship; ship_vessel_id := ship_vessel_id ship;
     ship_open := ship_open ship; ship_visible := b |}.

Definition setLinerShips (l : list Ship) (liner : Liner) : Liner :=
  {| liner_label := liner_label liner; liner_open := liner_open liner;
     liner_visible := liner_visible liner; liner_ships := l |}.

Definition setLinerOpen (b : bool) (liner : Liner) : Liner :=
  {| liner_label := liner_label liner; liner_open := b;
     liner_visible := liner_visible liner; liner_ships := liner_ships liner |}.

Definition setLinerVisible (b : bool) (liner : Liner) : Liner :=
  {| liner_label := liner_label liner; liner_open := liner_open liner;
     liner_visible := b; liner_ships := liner_ships liner |}.

(** The [toggle] listener of [setupLiners]: a liner that is now closed
    closes every ship below it. *)
Definition linerToggleListener (liner : Liner) : Liner :=
  if negb (liner_open liner)
  then setLinerShips (map (setShipOpen false) (liner_ships liner)) liner
  else liner.

(** The [toggle] listener of [setupShips]: a ship that is now open loads
    its inspection history ([data-vessel-id], or [""] without it). *)
Definition shipToggleListener (ship : Ship) (s : State) : State :=
  if negb (ship_open ship) then s
  else snd (loadInspectionHistoryForVessel (Some (default "" (ship_vessel_id ship))) s).

(** A [details] element whose [open] flag changed receives a [toggle]
    event. [before] is the tree when the task began. *)
Fixpoint fireLinerToggles (before after : list Liner) : list Liner :=
  match before, after with
  | b :: bs, a :: rest =>
      (if Bool.eqb (liner_open b) (liner_open a) then a else linerToggleListener a)
        :: fireLinerToggles bs rest
  | _, _ => after
  end.

Fixpoint fireShipToggles (before after : list Ship) (s : State) : State :=
  match before, after with
  | b :: bs, a :: rest =>
      fireShipToggles bs rest
        (if Bool.eqb (ship_open b) (ship_open a) then s else shipToggleListener a s)
  | _, _ => s
  end.

Fixpoint fireShipTogglesIn (before after : list Liner) (s : State) : State :=
  match before, after with
  | b :: bs, a :: rest =>
      fireShipTogglesIn bs rest (fireShipToggles (liner_ships b) (liner_ships a) s)
  | _, _ => s
  end.

Definition settleToggles (before : list Liner) (s : State) : State :=
  let t1 := fireLinerToggles before (tree s) in
  fireShipTogglesIn before t1 (setTree t1 s).

(** ** Search *)

(** [textOf(el)]: the trimmed text content. *)
Definition textOf (textContent : string) : string := Js.trim textContent.

(** [!q || name.indexOf(q) !== -1] *)
Definition nameMatches (q name : string) : bool :=
  negb (Js.truthy q) || negb (Js.indexOf name q =? -1).

Definition shipMatch (q : string) (ship : Ship) : bool :=
  nameMatches q (Js.toLowerCase (textOf (ship_label ship))).

(** [shipMatches.forEach] of a visible liner, threading [matchedShips]. *)
Fixpoint showShips (q : string) (linerMatch : bool) (l : list Ship) (matchedShips : nat)
  : list Ship * nat :=
  match l with
  | [] => ([], matchedShips)
  | ship :: rest =>
      let shipVisible := negb (Js.truthy q) || linerMatch || shipMatch q ship in
      let ship1 := setShipVisible shipVisible ship in
      if negb shipVisible
      then let '(rest', n) := showShips q linerMatch rest matchedShips in
           (setShipOpen false ship1 :: rest', n)
      else let '(rest', n) := showShips q linerMatch rest (S matchedShips) in
           (ship1 :: rest', n)
  end.

(** The body of [linerEls().forEach] in [applyFilter]. *)
Definition filterLiner (q : string) (liner : Liner) (matchedLiners matchedShips : nat)
  : Liner * nat * nat :=
  let linerName := Js.toLowerCase (textOf (liner_label liner)) in
  let linerMatch := nameMatches q linerName in
  let ships := liner_ships liner in
  let anyShipMatch := existsb (shipMatch q) ships in
  let linerVisible := negb (Js.truthy q) || linerMatch || anyShipMatch in
  let liner1 := setLinerVisible linerVisible liner in
  if negb linerVisible
  then (setLinerShips (map (fun ship => setShipVisible true (setShipOpen false ship)) ships)
          (setLinerOpen false liner1),
        matchedLiners, matchedShips)
  else
    let '(ships1, n) := showShips q linerMatch ships matchedShips in
    let liner2 := setLinerShips ships1 liner1 in
    if Js.truthy q
    then (setLinerOpen true liner2, S matchedLiners, n)
    else (setLinerShips (map (setShipOpen false) ships1) (setLinerOpen false liner2),
          S matchedLiners, n).

Fixpoint filterLiners (q : string) (l : list Liner) (matchedLiners matchedShips : nat)
  : list Liner * nat * nat :=
  match l with
  | [] => ([], matchedLiners, matchedShips)
  | liner :: rest =>
      let '(liner', ml, ms) := filterLiner q liner matchedLiners matchedShips in
      let '(rest', ml', ms') := filterLiners q rest ml ms in
      (liner' :: rest', ml', ms')
  end.

(** [applyFilter(raw)] on the tree: the new tree and the counters
    [matchedLiners], [matchedShips] handed to [setStatusText]. *)
Definition applyFilter (raw : string) (t : list Liner) : list Liner * nat * nat :=
  let q := Js.toLowerCase (Js.trim raw) in
  filterLiners q t 0%nat 0%nat.

(** ** Events *)

Inductive Event :=
| EvToggleLiner (i : nat)
| EvToggleShip (i j : nat)
| EvFilter (raw : string)
| EvLoad (vesselIdRaw : option string)
| EvHttp (k : nat) (outcome : HttpOutcome) (now : Z).

Definition flipLiner (liner : Liner) : Liner := setLinerOpen (negb (liner_open liner)) liner.
Definition flipShip (ship : Ship) : Ship := setShipOpen (negb (ship_open ship)) ship.

(** One task of the page:
    - the user toggles liner [i], or ship [j] of liner [i] (the browser flips
      [open], then the [toggle] listeners run; an index that names no node
      changes nothing);
    - an [input] or [search] event runs [applyFilter(input.value)];
    - [loadInspectionHistoryForVessel] is called;
    - a GET settles. *)
Definition step `{Host} (ev : Event) (s : State) : State :=
  match ev with
  | EvToggleLiner i =>
      settleToggles (tree s) (setTree (alter flipLiner i (tree s)) s)
  | EvToggleShip i j =>
      settleToggles (tree s)
        (setTree (alter (fun liner => setLinerShips (alter flipShip j (liner_ships liner)) liner)
                        i (tree s)) s)
  | EvFilter raw =>
      let '(t, ml, ms) := applyFilter raw (tree s) in
      settleToggles (tree s) (setTally (ml, ms) (setTree t s))
  | EvLoad raw => snd (loadInspectionHistoryForVessel raw s)
  | EvHttp k outcome now => httpSettled k outcome now s
  end.

Definition run `{Host} (tr : list Event) (s : State) : State :=
  fold_left (fun st ev => step ev st) tr s.

(** The states the page can be in: those reached by tasks from a freshly
    built tree with an empty cache. *)
Definition reachable `{Host} (s : State) : Prop :=
  exists t tr, s = run tr (initState t).

(** The entry states of the specification. *)
Inductive EntryState := Idle | Loading | Loaded | Failed.

Definition entryState (c : option CacheEntry) : EntryState :=
  match c with
  | None => Idle
  | Some e =>
      if loaded e then Loaded
      else match loading e, promise e with
           | true, Some _ => Loading
           | _, _ => Failed
           end
  end.

(** *** A host for the scenarios

    Its [Date.parse] reads the UTC form [YYYY-MM-DDTHH:mm:ssZ] of the
    ECMAScript date-time format (the form of Dataverse date-time values) and
    answers [NaN] to everything else. *)
Definition digitVal (c : ascii) : option Z :=
  let n := N_of_ascii c in
  if ((48 <=? n) && (n <=? 57))%N then Some (Z.of_N n - 48) else None.

Fixpoint number (acc : Z) (l : list ascii) : option Z :=
  match l with
  | [] => Some acc
  | c :: r => match digitVal c with Some d => number (acc * 10 + d) r | None => None end
  end.

Definition parseUtcIso (s : string) : option Z :=
  match list_ascii_of_string s with
  | [y1; y2; y3; y4; d1; m1; m2; d2; a1; a2; t; h1; h2; c1; n1; n2; c2; s1; s2; z] =>
      if (Ascii.eqb d1 "-" && Ascii.eqb d2 "-" && Ascii.eqb t "T" && Ascii.eqb c1 ":"
          && Ascii.eqb c2 ":" && Ascii.eqb z "Z")%char
      then
        match number 0 [y1; y2; y3; y4], number 0 [m1; m2], number 0 [a1; a2],
              number 0 [h1; h2], number 0 [n1; n2], number 0 [s1; s2] with
        | Some y, Some mo, Some da, Some h, Some mi, Some se =>
            if (1 <=? mo) && (mo <=? 12) && (1 <=? da) && (da <=? 31)
               && (JsDate.MakeDay y (mo - 1) (da + 1) <=? JsDate.MakeDay y mo 1)
               && (h <=? 23) && (mi <=? 59) && (se <=? 59)
            then Some (JsDate.MakeDay y (mo - 1) da * JsDate.msPerDay
                       + h * 3600000 + mi * 60000 + se * 1000)
            else None
        | _, _, _, _, _, _ => None
        end
      else None
  | _ => None
  end.

Definition utcHost : Host := {| Date_parse := parseUtcIso |}.

(** ** Predicates used in the statements *)

Fixpoint allChars (f : ascii -> bool) (s : string) : bool :=
  match s with
  | EmptyString => true
  | String c r => f c && allChars f r
  end.

(** An empty or whitespace-only query. *)
Definition blank (raw : string) : bool := allChars Js.isWhiteSpace raw.

Definition loadingEntry (p : nat) : CacheEntry :=
  {| loaded := false; loading := true; rows := []; promise := Some p |}.

Definition failedEntry : CacheEntry :=
  {| loaded := false; loading := false; rows := []; promise := None |}.

(** Promise [p] waits for an outstanding GET for [vesselId]. *)
Definition inflight (vesselId : string) (p : nat) (s : State) : Prop :=
  exists k r, requests s !! k = Some r /\ req_pending r = true
              /\ req_vessel r = vesselId /\ req_promise r = p.

(** What holds of the cache, the promises and the requests in every
    reachable state. *)
Record inv (s : State) : Prop := {
  inv_cache : forall k r, requests s !! k = Some r -> req_pending r = true ->
    __InspectionCache s !! req_vessel r = Some (loadingEntry (req_promise r));
  inv_promise : forall k r, requests s !! k = Some r -> req_pending r = true ->
    promises s !! req_promise r = Some Pending;
  inv_owner : forall k1 k2 r1 r2,
    requests s !! k1 = Some r1 -> requests s !! k2 = Some r2 ->
    req_pending r1 = true -> req_pending r2 = true ->
    req_promise r1 = req_promise r2 -> k1 = k2;
  inv_entry : forall vesselId e p, __InspectionCache s !! vesselId = Some e ->
    promise e = Some p -> inflight vesselId p s;
  inv_key : __InspectionCache s !! "" = None;
  inv_named : forall k r, requests s !! k = Some r -> req_vessel r <> "";
  inv_norej : forall p, promises s !! p <> Some Rejected
}.

(** A rejection that [fetchIncidentsWithFallback] does not answer with a
    second GET: any rejection of the retry, and any rejection of the first
    try whose status is not 400. *)
Definition finalFailure (r : Request) (status : Z) : bool :=
  negb (req_guidLiteral r && (status =? 400)).

Definition shipReset (ship : Ship) : Prop :=
  ship_visible ship = true /\ ship_open ship = false.

(** Every liner and every ship is visible and closed. *)
Definition allReset (t : list Liner) : Prop :=
  Forall (fun liner => liner_visible liner = true /\ liner_open liner = false
                       /\ Forall shipReset (liner_ships liner)) t.

(** The nodes of a tree without their flags. *)
Definition shape (t : list Liner) : list (string * list (string * option string)) :=
  map (fun liner => (liner_label liner,
                     map (fun ship => (ship_label ship, ship_vessel_id ship)) (liner_ships liner))) t.

(** What [showShips] does to one ship. *)
Definition showShip (q : string) (linerMatch : bool) (ship : Ship) : Ship :=
  let shipVisible := negb (Js.truthy q) || linerMatch || shipMatch q ship in
  if negb shipVisible then setShipOpen false (setShipVisible shipVisible ship)
  else setShipVisible shipVisible ship.

(** What [filterLiner] does to one liner, whatever the counters. *)
Definition filteredLiner (q : string) (liner : Liner) : Liner :=
  fst (fst (filterLiner q liner 0%nat 0%nat)).

(** [linerMatch], [linerVisible] and the number of ships shown, as
    [filterLiner] computes them. *)
Definition linerMatches (q : string) (liner : Liner) : bool :=
  nameMatches q (Js.toLowerCase (textOf (liner_label liner))).

Definition linerShown (q : string) (liner : Liner) : bool :=
  negb (Js.truthy q) || linerMatches q liner || existsb (shipMatch q) (liner_ships liner).

Definition shipShown (q : string) (linerMatch : bool) (ship : Ship) : bool :=
  negb (Js.truthy q) || linerMatch || shipMatch q ship.

Definition shipsShown (q : string) (liner : Liner) : nat :=
  length (List.filter (shipShown q (linerMatches q liner)) (liner_ships liner)).

(** The catalog [{GroupX: [Ship1, Ship2]}] of the scenarios. *)
Definition linerX : Liner :=
  {| liner_label := "GroupX"; liner_open := false; liner_visible := true;
     liner_ships :=
       [ {| ship_label := "Ship1"; ship_vessel_id := Some "shipA";
            ship_open := false; ship_visible := true |};
         {| ship_label := "Ship2"; ship_vessel_id := Some "shipB";
            ship_open := false; ship_visible := true |} ] |}.

Definition catalogX : list Liner := [linerX].

(** *** Rows: what is kept, and the reading under which nothing is dropped *)

(** The row an incident contributes, if any: it must be non-null, carry a
    non-empty end date, and that date must lie within the last five years.
    The row is [{date: dateOnly(iso), score: formatScore(score)}]: the first
    ten characters of the end date (all of it when it is shorter), and for
    the score [""] when it is [null], [undefined] or empty, [String(n) + "/100"]
    when it is a finite Number [n], and [String(n)] when it is not finite. *)
Definition keptRow `{Host} (now : Z) (r : option Incident) : option DetailRow :=
  match r with
  | Some r' =>
      match ethi_inspectionenddateandtime r' with
      | Some iso =>
          if Js.truthy iso && isWithinLastYears (Some iso) 5 now
          then Some {| date := dateOnly iso; score := formatScore (ethi_inspectionscore r') |}
          else None
      | None => None
      end
  | None => None
  end.

(** Newest first: a row is never followed by one with a later date. *)
Definition newestFirst (l : list DetailRow) : Prop :=
  Sorted (fun a b => Js.ltb (date a) (date b) = false) l.


(** How often the adapter was called for [vesselId]. *)
Definition fetchCount (vesselId : string) (s : State) : nat :=
  count_occ String.string_dec (fetchLog s) vesselId.

(** Promises only move forward: one that exists keeps its value, except that
    a pending one may become fulfilled. *)
Definition settleOnce (s s' : State) : Prop :=
  forall p v, promises s !! p = Some v ->
    promises s' !! p = Some v \/ (v = Pending /\ exists r, promises s' !! p = Some (Fulfilled r)).

(** The relation between a state and a later one that the proof of
    deduplication follows through a task. *)
Definition dedupRel (vesselId : string) (p : nat) (s s' : State) : Prop :=
  inv s ->
  inv s' /\ settleOnce s s'
  /\ (inflight vesselId p s -> promises s' !! p = Some Pending ->
      inflight vesselId p s' /\ fetchCount vesselId s' = fetchCount vesselId s).

(** *** States of the scenarios (time: 2026-11-02T00:00:00Z) *)

Definition today : Z := 1793577600000.

Definition shipBloading : State :=
  @run utcHost [EvLoad (Some "shipB")] (initState catalogX).

Definition shipAloading : State :=
  @run utcHost [EvLoad (Some "shipA")] (initState catalogX).

Definition shipBfailed : State :=
  @run utcHost [EvLoad (Some "shipB"); EvHttp 0 (HttpFail 500) today] (initState catalogX).

Definition shipAloaded : State :=
  @run utcHost
    [EvLoad (Some "shipA");
     EvHttp 0 (HttpOk (AnswerObject (Some
       [Some {| ethi_inspectionenddateandtime := Some "2025-03-15T00:00:00Z";
                ethi_inspectionscore := ScoreNumber (Js.Integer 98 eq_refl) |}])))
       today]
    (initState catalogX).

Definition openedX : list Liner :=
  [ {| liner_label := "GroupX"; liner_open := true; liner_visible := true;
       liner_ships :=
         [ {| ship_label := "Ship1"; ship_vessel_id := Some "shipA";
              ship_open := true; ship_visible := true |};
           {| ship_label := "Ship2"; ship_vessel_id := Some "shipB";
              ship_open := false; ship_visible := true |} ] |} ].

(** An answer with one inspection of 2025 and one of 2019. *)
Definition twoInspections : ODataAnswer :=
  AnswerObject (Some
    [ Some {| ethi_inspectionenddateandtime := Some "2025-03-15T00:00:00Z";
              ethi_inspectionscore := ScoreNumber (Js.Integer 98 eq_refl) |};
      Some {| ethi_inspectionenddateandtime := Some "2019-06-01T00:00:00Z";
              ethi_inspectionscore := ScoreNumber (Js.Integer 95 eq_refl) |} ]).


(** An answer in the order the request asks for: an inspection of 2025, two
    of the same day of 2024 (the first without a score) and one of 2019. *)
Definition orderedInspections : ODataAnswer :=
  AnswerObject (Some
    [ Some {| ethi_inspectionenddateandtime := Some "2025-03-15T00:00:00Z";
              ethi_inspectionscore := ScoreNumber (Js.Integer 98 eq_refl) |};
      Some {| ethi_inspectionenddateandtime := Some "2024-06-01T10:00:00Z";
              ethi_inspectionscore := ScoreNull |};
      Some {| ethi_inspectionenddateandtime := Some "2024-06-01T08:00:00Z";
              ethi_inspectionscore := ScoreNumber (Js.Integer 95 eq_refl) |};
      Some {| ethi_inspectionenddateandtime := Some "2019-06-01T00:00:00Z";
              ethi_inspectionscore := ScoreNumber (Js.Integer 90 eq_refl) |} ]).

(** *** Relations and counts for the further properties of the cache *)

(** What a task may do to the entry of [vesselId]: a loaded entry stays as
    it is without a further adapter call, and an entry is never removed. *)
Definition keepRel (vesselId : string) (s s' : State) : Prop :=
  inv s ->
  inv s'
  /\ (forall e, __InspectionCache s !! vesselId = Some e -> loaded e = true ->
        __InspectionCache s' !! vesselId = Some e
        /\ fetchCount vesselId s' = fetchCount vesselId s)
  /\ (is_Some (__InspectionCache s !! vesselId) ->
      is_Some (__InspectionCache s' !! vesselId)).

(** The GETs issued so far: first tries, retries, and answered first tries. *)
Definition firstTries (s : State) : nat :=
  length (List.filter req_guidLiteral (requests s)).

Definition retries (s : State) : nat :=
  length (List.filter (fun r => negb (req_guidLiteral r)) (requests s)).

Definition answeredFirstTries (s : State) : nat :=
  length (List.filter (fun r => req_guidLiteral r && negb (req_pending r)) (requests s)).

(** Every adapter call issued one first try, and every retry follows an
    answered first try. *)
Definition getsInv (s : State) : Prop :=
  firstTries s = length (fetchLog s) /\ (retries s <= answeredFirstTries s)%nat.

(** *** Reading the tree after a filter pass *)

(** The counters as read off a tree: the visible liners, and the visible
    ships below visible liners. *)
Definition visibleLiners (t : list Liner) : nat :=
  length (List.filter liner_visible t).

Definition visibleShipsOf (liner : Liner) : nat :=
  if liner_visible liner then length (List.filter ship_visible (liner_ships liner)) else 0%nat.

Definition visibleShips (t : list Liner) : nat :=
  list_sum (map visibleShipsOf t).

(** Nothing hidden is open, and a closed liner has only closed ships. *)
Definition tidyShip (ship : Ship) : bool := implb (ship_open ship) (ship_visible ship).

Definition tidyLiner (liner : Liner) : bool :=
  implb (liner_open liner) (liner_visible liner)
  && (liner_open liner || forallb (fun ship => negb (ship_open ship)) (liner_ships liner))
  && forallb tidyShip (liner_ships liner).

Definition tidy (t : list Liner) : bool := forallb tidyLiner t.

(** [q] occurs in [name] as a substring. *)
Definition occursIn (q name : string) : Prop :=
  exists a b, name = (a ++ q ++ b)%string.

(** The flags of a tree, node by node, and their comparison: whatever is
    visible in the first tree is visible in the second. *)
Definition shipShownIn (a b : Ship) : bool := implb (ship_visible a) (ship_visible b).

Fixpoint shipsShownIn (l l' : list Ship) : bool :=
  match l, l' with
  | a :: r, b :: r' => shipShownIn a b && shipsShownIn r r'
  | [], [] => true
  | _, _ => false
  end.

Fixpoint shownIn (t t' : list Liner) : bool :=
  match t, t' with
  | a :: r, b :: r' =>
      implb (liner_visible a) (liner_visible b && shipsShownIn (liner_ships a) (liner_ships b))
      && shownIn r r'
  | [], [] => true
  | _, _ => false
  end.

(** No ship is open in the second tree that was closed in the first. *)
Fixpoint noShipOpened (l l' : list Ship) : bool :=
  match l, l' with
  | a :: r, b :: r' => implb (ship_open b) (ship_open a) && noShipOpened r r'
  | [], [] => true
  | _, _ => false
  end.

Fixpoint noShipOpenedIn (t t' : list Liner) : bool :=
  match t, t' with
  | a :: r, b :: r' => noShipOpened (liner_ships a) (liner_ships b) && noShipOpenedIn r r'
  | [], [] => true
  | _, _ => false
  end.

(** The query as [applyFilter] uses it. *)
Definition normalizedQuery (raw : string) : string := Js.toLowerCase (Js.trim raw).

(** *** Ids *)

Definition noBraces (s : string) : bool := allChars (fun c => negb (isBrace c)) s.

(** [buildShipNode]: the [data-vessel-id] attribute is set only for a truthy
    [vesselId], to [normalizeGuid(vesselId)]. *)
Definition shipNodeVesselId (vesselId : string) : option string :=
  if Js.truthy vesselId then Some (normalizeGuid (Some vesselId)) else None.

(** *** The incidents URL *)

(** [encodeURIComponent] on code units below 256: the unreserved characters
    [A-Z a-z 0-9 - _ . ! ~ * ' ( )] stay, every other character becomes the
    percent-escaped bytes of its UTF-8 encoding (one byte below 128, two from
    128 on). *)
Definition isUnreserved (c : ascii) : bool :=
  let n := N_of_ascii c in
  ((65 <=? n) && (n <=? 90) || (97 <=? n) && (n <=? 122) || (48 <=? n) && (n <=? 57)
   || (n =? 45) || (n =? 95) || (n =? 46) || (n =? 33) || (n =? 126) || (n =? 42)
   || (n =? 39) || (n =? 40) || (n =? 41))%N.

Definition hexDigit (n : N) : ascii :=
  if (n <? 10)%N then ascii_of_N (48 + n) else ascii_of_N (55 + n).

Definition percentByte (b : N) : string :=
  String "%" (String (hexDigit (b / 16)) (String (hexDigit (b mod 16)) EmptyString)).

Definition encodeChar (c : ascii) : string :=
  let n := N_of_ascii c in
  if isUnreserved c then String c EmptyString
  else if (n <? 128)%N then percentByte n
  else (percentByte (192 + n / 64) ++ percentByte (128 + n mod 64))%string.

Fixpoint encodeURIComponent (s : string) : string :=
  match s with
  | EmptyString => EmptyString
  | String c r => (encodeChar c ++ encodeURIComponent r)%string
  end.

(** [c] matches the letter [l] under the [i] flag. *)
Definition sameLetter (l c : ascii) : bool :=
  Ascii.eqb (Js.toLowerChar c) l && (N_of_ascii c <? 128)%N.

(** [s.replace(/^guid'?/i, "")] *)
Definition stripGuidPrefix (s : string) : string :=
  match s with
  | String g (String u (String i (String d r))) =>
      if (sameLetter "g" g && sameLetter "u" u && sameLetter "i" i && sameLetter "d" d)%char
      then match r with
           | String q r' => if Ascii.eqb q "'" then r' else r
           | EmptyString => r
           end
      else s
  | _ => s
  end.

(** [s.replace(/'/g, "")] *)
Fixpoint removeQuotes (s : string) : string :=
  match s with
  | EmptyString => EmptyString
  | String c r => if Ascii.eqb c "'" then removeQuotes r else String c (removeQuotes r)
  end.

Definition odataGuidLiteral (g : option string) : string :=
  let id := normalizeGuid g in
  ("guid'" ++ id ++ "'")%string.

(** The id as it appears in the filter of [buildIncidentsUrlForVessel]. *)
Definition idExprOf (vesselId : option string) (useGuidLiteral : bool) : string :=
  let idExpr := if useGuidLiteral then odataGuidLiteral vesselId else normalizeGuid vesselId in
  removeQuotes (stripGuidPrefix idExpr).

Definition incidentsFilter (idExpr : string) : string :=
  ("(" ++
     "ethi_finalreportcreated ne null" ++
     " and statecode eq 0" ++
     " and statuscode ne 6" ++
     " and ethi_establishmenttype eq 992800002" ++
     " and _ethi_conveyance_value ne null" ++
     " and ethi_inspectionscope eq 786080000" ++
     " and (" ++
            "_ethi_rbiinspectiontype_value eq 05aea5d2-11eb-ef11-9342-0022486e14f0" ++
            " or _ethi_rbiinspectiontype_value eq 4c5048c5-11eb-ef11-9342-0022486e14f0" ++
           ")" ++
     " and (_ethi_conveyance_value eq " ++ idExpr ++ ")" ++
   ")")%string.

Definition buildIncidentsUrlForVessel (vesselId : option string) (useGuidLiteral : bool) : string :=
  let filter := incidentsFilter (idExprOf vesselId useGuidLiteral) in
  ("/_api/incidents" ++
   "?$select=_ethi_conveyance_value,ethi_inspectionenddateandtime,ethi_inspectionscore,statecode,statuscode" ++
   "&$filter=" ++ encodeURIComponent filter ++
   "&$orderby=" ++ encodeURIComponent "ethi_inspectionenddateandtime desc" ++
   "&$top=1000")%string.

Fixpoint countChar (c : ascii) (s : string) : nat :=
  match s with
  | EmptyString => 0%nat
  | String x r => ((if Ascii.eqb x c then 1 else 0) + countChar c r)%nat
  end.

(** Characters that can stand in a query value without ending it. *)
Definition isQuerySafe (c : ascii) : bool := isUnreserved c || Ascii.eqb c "%".

(** *** Grouping the vessels of the catalog *)

(** A row of the [ethi_vessels] answer: the expanded owner with its [name],
    the vessel's name and id, and the weight range (an option-set value).
    A row of the array may itself be [null]. *)
Record Owner := { owner_name : option string }.

Record Vessel := {
  ethi_OwnerId : option Owner;
  ethi_name : option string;
  ethi_vesselid : option string;
  ethi_shipweightrange : option Z
}.

(** [{ vesselId, weight }] *)
Record ShipMeta := { vesselId : string; weight : string }.

(** [x ? String(x).trim() : ""] *)
Definition trimmedOrEmpty (x : option string) : string :=
  match x with
  | Some n => if Js.truthy n then Js.trim n else ""
  | None => ""
  end.

Definition ownerNameOf (r : option Vessel) : string :=
  match r with
  | Some v => match ethi_OwnerId v with
              | Some o => trimmedOrEmpty (owner_name o)
              | None => ""
              end
  | None => ""
  end.

Definition shipNameOf (r : option Vessel) : string :=
  match r with
  | Some v => trimmedOrEmpty (ethi_name v)
  | None => ""
  end.

Definition vesselIdOf (r : option Vessel) : string :=
  match r with
  | Some v => match ethi_vesselid v with
              | Some g => if Js.truthy g then normalizeGuid (Some g) else ""
              | None => ""
              end
  | None => ""
  end.

Definition weightOf (r : option Vessel) : string :=
  match r with
  | Some v => match ethi_shipweightrange v with
              | Some n => Js.stringOfInt n
              | None => ""
              end
  | None => ""
  end.

Definition metaOf (r : option Vessel) : ShipMeta :=
  {| vesselId := vesselIdOf r; weight := weightOf r |}.

(** The rows that are not skipped: owner name, ship name and vessel id are
    all non-empty. *)
Definition complete (r : option Vessel) : bool :=
  Js.truthy (ownerNameOf r) && Js.truthy (shipNameOf r) && Js.truthy (vesselIdOf r).

(** The body of [rows.forEach] in [loadLinersAndShipsFromVessels], on
    [map : ownerName -> shipName -> { vesselId, weight }]. *)
Definition addVessel (map : gmap string (gmap string ShipMeta)) (r : option Vessel)
  : gmap string (gmap string ShipMeta) :=
  let ownerName := ownerNameOf r in
  let shipName := shipNameOf r in
  let vesselId := vesselIdOf r in
  if negb (Js.truthy ownerName) || negb (Js.truthy shipName) || negb (Js.truthy vesselId)
  then map
  else <[ownerName := <[shipName := metaOf r]> (default ∅ (map !! ownerName))]> map.

Definition groupVessels (rows : list (option Vessel)) : gmap string (gmap string ShipMeta) :=
  fold_left addVessel rows ∅.

(** [map[ownerName][shipName]], if both keys exist. *)
Definition shipOf (map : gmap string (gmap string ShipMeta)) (ownerName shipName : string)
  : option ShipMeta :=
  match map !! ownerName with
  | Some inner => inner !! shipName
  | None => None
  end.

(** Two rows that name the same ship of the same owner. *)
Definition sameShip (r r' : option Vessel) : bool :=
  String.eqb (ownerNameOf r) (ownerNameOf r') && String.eqb (shipNameOf r) (shipNameOf r').

(** Rows of an example catalog: a ship listed twice, and rows to skip. *)
Definition vesselRow (owner ship id : string) : option Vessel :=
  Some {| ethi_OwnerId := Some {| owner_name := Some owner |}; ethi_name := Some ship;
          ethi_vesselid := Some id; ethi_shipweightrange := Some 3 |}.

Definition exampleVessels : list (option Vessel) :=
  [ vesselRow " GroupX " "Ship1" "{old-id}";
    vesselRow "GroupX" "Ship2" "shipB";
    vesselRow "GroupX" " Ship1" " {shipA} ";
    vesselRow "GroupY" "" "shipC";
    None ].

(** *** Which events change what *)

(** The [display] of every node, without the other flags. *)
Definition visibility (t : list Liner) : list (bool * list bool) :=
  map (fun liner => (liner_visible liner, map ship_visible (liner_ships liner))) t.

Definition isFilterEvent (ev : Event) : bool :=
  match ev with EvFilter _ => true | _ => false end.

Definition isToggleEvent (ev : Event) : bool :=
  match ev with EvToggleLiner _ | EvToggleShip _ _ => true | _ => false end.

(** * Properties *)

(** ** The primitives on examples *)

Example trim_ex : Js.trim "  {AB cd}  " = "{AB cd}".
Proof. reflexivity. Qed.
Example lower_ex : Js.toLowerCase "GroupX" = "groupx".
Proof. reflexivity. Qed.
Example indexOf_ex1 : Js.indexOf "ship1" "ip" = 2.
Proof. reflexivity. Qed.
Example indexOf_ex2 : Js.indexOf "ship1" "groupx" = -1.
Proof. reflexivity. Qed.
Example stringOfInt_ex : Js.stringOfInt 98 = "98" /\ Js.stringOfInt 100 = "100" /\ Js.stringOfInt 0 = "0" /\ Js.stringOfInt (-7) = "-7".
Proof. repeat split; reflexivity. Qed.
Example utc_ex : JsDate.UTC 2000 0 1 = 946684800000 /\ JsDate.UTC 2021 10 2 = 1635811200000 /\ JsDate.UTC 2019 1 29 = JsDate.UTC 2019 2 1.
Proof. repeat split; reflexivity. Qed.
Example civil_ex : JsDate.civilOfDay 0 = (1970, 0, 1) /\ JsDate.civilOfDay 20759 = (2026, 10, 2) /\ JsDate.civilOfDay 19782 = (2024, 1, 29) /\ JsDate.civilOfDay (-1) = (1969, 11, 31).
Proof. repeat split; reflexivity. Qed.
Example trim_nbsp_ex : Js.trim (String (ascii_of_N 160) " a ") = "a".
Proof. reflexivity. Qed.
Example lower_latin1_ex :
  Js.toLowerCase (String (ascii_of_N 201) (String (ascii_of_N 215) "Z"))
  = String (ascii_of_N 233) (String (ascii_of_N 215) "z").
Proof. reflexivity. Qed.
Example normalizeGuid_ex :
  normalizeGuid (Some " {ab} ") = "ab" /\ normalizeGuid (Some "{ }") = " "
  /\ normalizeGuid None = "".
Proof. repeat split; reflexivity. Qed.
Example parse_ex :
  parseUtcIso "2025-03-15T00:00:00Z" = Some 1741996800000
  /\ parseUtcIso "2025-02-29T00:00:00Z" = None
  /\ parseUtcIso "2024-02-29T12:30:15Z" = Some 1709209815000.
Proof. repeat split; reflexivity. Qed.
Example scenarioA :
  applyFilter "ship1" catalogX
  = ([ {| liner_label := "GroupX"; liner_open := true; liner_visible := true;
          liner_ships :=
            [ {| ship_label := "Ship1"; ship_vessel_id := Some "shipA";
                 ship_open := false; ship_visible := true |};
              {| ship_label := "Ship2"; ship_vessel_id := Some "shipB";
                 ship_open := false; ship_visible := false |} ] |} ],
     1%nat, 1%nat).
Proof. reflexivity. Qed.
Example scenarioE : applyFilter "  " openedX = applyFilter "" openedX.
Proof. reflexivity. Qed.


(** ** Strings *)

Lemma trimStart_blank s : blank s = true -> Js.trimStart s = "".
Proof.
  induction s as [|c r IH]; simpl; [reflexivity|].
  intros [Hc Hr]%andb_true_iff. rewrite Hc. auto.
Qed.

Lemma trim_blank s : blank s = true -> Js.trim s = "".
Proof. intros Hs. unfold Js.trim. rewrite trimStart_blank; auto. Qed.

Lemma brace_not_space c : isBrace c = true -> Js.isWhiteSpace c = false.
Proof.
  unfold isBrace. intros [E|E]%orb_true_iff; apply Ascii.eqb_eq in E; subst; reflexivity.
Qed.

Lemma trimStart_braces s : allChars isBrace s = true -> Js.trimStart s = s.
Proof.
  destruct s as [|c r]; simpl; [reflexivity|].
  intros [Hc _]%andb_true_iff. rewrite (brace_not_space _ Hc). reflexivity.
Qed.

Lemma trimEnd_braces s : allChars isBrace s = true -> Js.trimEnd s = s.
Proof.
  induction s as [|c r IH]; simpl; [reflexivity|].
  intros [Hc Hr]%andb_true_iff. rewrite (IH Hr), (brace_not_space _ Hc).
  destruct r; reflexivity.
Qed.

Lemma stripBraces_braces s : allChars isBrace s = true -> stripBraces s = "".
Proof.
  induction s as [|c r IH]; simpl; [reflexivity|].
  intros [Hc Hr]%andb_true_iff. rewrite Hc. auto.
Qed.

Lemma truthy_false s : Js.truthy s = false <-> s = "".
Proof. destruct s; simpl; split; congruence. Qed.

Lemma truthy_true s : Js.truthy s = true <-> s <> "".
Proof. destruct s; simpl; split; congruence. Qed.

(** The ids that the three listed forms normalise to the empty string. *)
Lemma normalizeGuid_empty_forms g :
  g = None \/ (exists str, g = Some str /\ (blank str = true \/ allChars isBrace str = true)) ->
  normalizeGuid g = "".
Proof.
  intros [->|(str & -> & [Hb|Hb])]; unfold normalizeGuid; simpl.
  - reflexivity.
  - rewrite trim_blank; auto.
  - unfold Js.trim. rewrite trimStart_braces, trimEnd_braces by assumption.
    now apply stripBraces_braces.
Qed.

(** ** The load function, case by case *)

Lemma load_empty raw s :
  normalizeGuid raw = "" ->
  loadInspectionHistoryForVessel raw s = promiseResolve (Rows []) s.
Proof. intros E. unfold loadInspectionHistoryForVessel. rewrite E. reflexivity. Qed.

Lemma load_cases raw s :
  let vesselId := normalizeGuid raw in
  vesselId <> "" ->
  match entryState (__InspectionCache s !! vesselId) with
  | Idle | Failed => loadInspectionHistoryForVessel raw s = startFetch vesselId s
  | Loading => exists e p, __InspectionCache s !! vesselId = Some e /\ promise e = Some p
                           /\ loadInspectionHistoryForVessel raw s = (p, s)
  | Loaded => exists e, __InspectionCache s !! vesselId = Some e
                        /\ loadInspectionHistoryForVessel raw s = promiseResolve (Rows (rows e)) s
  end.
Proof.
  intros vesselId Hne. apply truthy_true in Hne.
  unfold loadInspectionHistoryForVessel. fold vesselId. rewrite Hne. simpl.
  destruct (__InspectionCache s !! vesselId) as [e|] eqn:Hc; simpl; [|reflexivity].
  destruct (loaded e) eqn:Hl; [eauto|].
  destruct (loading e), (promise e) eqn:Hp; eauto.
Qed.

(** C10. An id that normalises to the empty string (in particular: no id,
    a whitespace-only id, a braces-only id) makes
    [loadInspectionHistoryForVessel] return a new promise that is already
    fulfilled with [{rows: []}] (no error flag); no fetch is started, no GET
    is issued, and the cache is left as it was. *)
Theorem C10_empty_id_resolves_without_fetch (raw : option string) (s : State) :
  normalizeGuid raw = "" ->
  let '(p, s') := loadInspectionHistoryForVessel raw s in
  promises s !! p = None
  /\ promises s' !! p = Some (Fulfilled (Rows []))
  /\ fetchLog s' = fetchLog s
  /\ requests s' = requests s
  /\ __InspectionCache s' = __InspectionCache s
  /\ (forall g, g = None \/ (exists str, g = Some str
                   /\ (blank str = true \/ allChars isBrace str = true)) ->
                normalizeGuid g = "").
Proof.
  intros E. rewrite (load_empty _ _ E). unfold promiseResolve; simpl.
  repeat split.
  - apply lookup_ge_None_2. lia.
  - now apply list_lookup_middle.
  - exact normalizeGuid_empty_forms.
Qed.

Lemma C10_witness :
  normalizeGuid (Some " {} ") = ""
  /\ let '(p, s') := loadInspectionHistoryForVessel (Some " {} ") (initState catalogX) in
     promises s' !! p = Some (Fulfilled (Rows [])) /\ fetchLog s' = [].
Proof.
  split; [reflexivity|].
  pose proof (C10_empty_id_resolves_without_fetch (Some " {} ") (initState catalogX) eq_refl) as W.
  destruct (loadInspectionHistoryForVessel (Some " {} ") (initState catalogX)) as [p s'].
  destruct W as (_ & W1 & W2 & _). split; [exact W1|exact W2].
Defined.

(** ** The invariant *)

Lemma inv_init t : inv (initState t).
Proof. constructor; simpl; intros; try discriminate; try done. Qed.

Lemma inflight_snoc vesselId p s s' r :
  requests s' = (requests s ++ [r])%list -> inflight vesselId p s -> inflight vesselId p s'.
Proof.
  intros E (k & r0 & Hk & Hr). exists k, r0. rewrite E.
  split; [now apply lookup_app_l_Some|exact Hr].
Qed.

Lemma inv_setTree t s : inv s -> inv (setTree t s).
Proof. intros []; constructor; simpl; assumption. Qed.

Lemma inv_setTally n s : inv s -> inv (setTally n s).
Proof. intros []; constructor; simpl; assumption. Qed.

Lemma inv_promiseResolve v s : inv s -> inv (snd (promiseResolve v s)).
Proof.
  intros [Hc Hp Ho He Hk Hn Hr]; constructor; simpl; eauto.
  - intros k r Hreq Hpen. apply lookup_app_l_Some. eauto.
  - intros p [[_ Hl]|[_ E]]%lookup_snoc_Some; [now apply Hr in Hl | discriminate].
Qed.

Lemma inv_startFetch vesselId s :
  inv s -> vesselId <> "" ->
  (forall p, __InspectionCache s !! vesselId <> Some (loadingEntry p)) ->
  inv (snd (startFetch vesselId s)).
Proof.
  intros [Hc Hp Ho He Hk Hn Hr] Hne Hfree; constructor; simpl.
  - intros k r [[_ Hreq]|[_ <-]]%lookup_snoc_Some Hpen; simpl.
    + rewrite lookup_insert_ne; [eauto|].
      intros ->. eapply Hfree; eauto.
    + now rewrite lookup_insert_eq.
  - intros k r [[_ Hreq]|[_ <-]]%lookup_snoc_Some Hpen; simpl.
    + apply lookup_app_l_Some. eauto.
    + now apply list_lookup_middle.
  - intros k1 k2 r1 r2 [[_ H1]|[-> <-]]%lookup_snoc_Some [[_ H2]|[-> <-]]%lookup_snoc_Some
      P1 P2 E; simpl in *; eauto.
    + apply Hp, lookup_lt_Some in H1; auto. lia.
    + apply Hp, lookup_lt_Some in H2; auto. lia.
  - intros v e p. destruct (decide (vesselId = v)) as [<-|Hv].
    + rewrite lookup_insert_eq. intros [= <-] [= <-].
      eexists (length (requests s)), _. simpl.
      split; [now apply list_lookup_middle|auto].
    + rewrite lookup_insert_ne by assumption. intros Hv1 Hv2.
      eapply (inflight_snoc v p s); [reflexivity|eauto].
  - rewrite lookup_insert_ne; auto.
  - intros k r [[_ Hreq]|[_ <-]]%lookup_snoc_Some; simpl; eauto.
  - intros p [[_ Hl]|[_ E]]%lookup_snoc_Some; [now apply Hr in Hl | discriminate].
Qed.

Lemma inv_load raw s : inv s -> inv (snd (loadInspectionHistoryForVessel raw s)).
Proof.
  intros Hi. destruct (decide (normalizeGuid raw = "")) as [E|E].
  - rewrite load_empty by assumption. now apply inv_promiseResolve.
  - pose proof (load_cases raw s E) as Hl. simpl in Hl.
    destruct (entryState (__InspectionCache s !! normalizeGuid raw)) eqn:Hs.
    + rewrite Hl. apply inv_startFetch; auto.
      intros p Hp. rewrite Hp in Hs. discriminate.
    + destruct Hl as (e & p & _ & _ & ->). exact Hi.
    + destruct Hl as (e & _ & ->). now apply inv_promiseResolve.
    + rewrite Hl. apply inv_startFetch; auto.
      intros p Hp. rewrite Hp in Hs. discriminate.
Qed.

Lemma loadingEntry_inj p q : loadingEntry p = loadingEntry q -> p = q.
Proof. unfold loadingEntry. congruence. Qed.

(** Two outstanding requests concern different vessels. *)
Lemma inv_vessel s k1 k2 r1 r2 :
  inv s -> requests s !! k1 = Some r1 -> requests s !! k2 = Some r2 ->
  req_pending r1 = true -> req_pending r2 = true ->
  req_vessel r1 = req_vessel r2 -> k1 = k2.
Proof.
  intros Hi H1 H2 P1 P2 E. eapply (inv_owner s Hi); eauto.
  pose proof (inv_cache s Hi _ _ H1 P1) as C1.
  pose proof (inv_cache s Hi _ _ H2 P2) as C2.
  rewrite E in C1. rewrite C1 in C2. injection C2 as C2. exact C2.
Qed.

Lemma answered_lookup (rs : list Request) k r k2 r2 :
  <[k := answered r]> rs !! k2 = Some r2 -> req_pending r2 = true ->
  k <> k2 /\ rs !! k2 = Some r2.
Proof.
  intros [(-> & <- & _)|[Hne Hl]]%list_lookup_insert_Some Hp; [discriminate|auto].
Qed.

Lemma inv_settle k r v e s :
  inv s -> requests s !! k = Some r -> req_pending r = true -> promise e = None ->
  inv (settlePromise (req_promise r) v e (req_vessel r)
         (setRequests (<[k := answered r]> (requests s)) s)).
Proof.
  intros Hi Hk Hpen Hnone. pose proof Hi as [Hc Hp Ho He Hkey Hn Hr]. constructor; simpl.
  - intros k2 r2 Hreq P2. destruct (answered_lookup _ _ _ _ _ Hreq P2) as [Hne H2].
    rewrite lookup_insert_ne; [eauto|].
    intros E. apply Hne. eapply inv_vessel; eauto.
  - intros k2 r2 Hreq P2. destruct (answered_lookup _ _ _ _ _ Hreq P2) as [Hne H2].
    rewrite list_lookup_insert_ne; [eauto|].
    intros E. apply Hne. eapply Ho; eauto.
  - intros k1 k2 r1 r2 H1 H2 P1 P2 E.
    destruct (answered_lookup _ _ _ _ _ H1 P1) as [_ H1'].
    destruct (answered_lookup _ _ _ _ _ H2 P2) as [_ H2']. eauto.
  - intros v0 e0 p. destruct (decide (req_vessel r = v0)) as [<-|Hv].
    + rewrite lookup_insert_eq. intros [= <-]. congruence.
    + rewrite lookup_insert_ne by assumption. intros Hv1 Hv2.
      destruct (He _ _ _ Hv1 Hv2) as (k2 & r2 & Hk2 & P2 & Ev & Ep).
      exists k2, r2. split; [|auto]. simpl.
      rewrite list_lookup_insert_ne; [exact Hk2|]. intros <-. congruence.
  - rewrite lookup_insert_ne; auto. eauto.
  - intros k2 r2 [(-> & <- & _)|[_ Hl]]%list_lookup_insert_Some; simpl; eauto.
  - intros p [(_ & E & _)|[_ Hl]]%list_lookup_insert_Some; [discriminate|].
    now apply Hr in Hl.
Qed.

Lemma inv_retry k r s :
  inv s -> requests s !! k = Some r -> req_pending r = true ->
  inv (setRequests (<[k := answered r]> (requests s) ++
         [{| req_vessel := req_vessel r; req_guidLiteral := false;
             req_promise := req_promise r; req_pending := true |}]) s).
Proof.
  intros Hi Hk Hpen. pose proof Hi as [Hc Hp Ho He Hkey Hn Hr]. constructor; simpl; auto.
  - intros k2 r2 [[_ Hreq]|[_ <-]]%lookup_snoc_Some P2; simpl; eauto.
    destruct (answered_lookup _ _ _ _ _ Hreq P2) as [_ H2]. eauto.
  - intros k2 r2 [[_ Hreq]|[_ <-]]%lookup_snoc_Some P2; simpl; eauto.
    destruct (answered_lookup _ _ _ _ _ Hreq P2) as [_ H2]. eauto.
  - intros k1 k2 r1 r2 [[_ H1]|[-> <-]]%lookup_snoc_Some [[_ H2]|[-> <-]]%lookup_snoc_Some
      P1 P2 E; simpl in *; auto.
    + destruct (answered_lookup _ _ _ _ _ H1 P1) as [_ H1'].
      destruct (answered_lookup _ _ _ _ _ H2 P2) as [_ H2']. eauto.
    + destruct (answered_lookup _ _ _ _ _ H1 P1) as [Hne H1'].
      exfalso. apply Hne. symmetry. eapply Ho; eauto.
    + destruct (answered_lookup _ _ _ _ _ H2 P2) as [Hne H2'].
      exfalso. apply Hne. eapply Ho; eauto.
  - intros v0 e0 p Hv1 Hv2.
    destruct (He _ _ _ Hv1 Hv2) as (k2 & r2 & Hk2 & P2 & Ev & Ep).
    destruct (decide (k = k2)) as [<-|Hne].
    + rewrite Hk in Hk2. injection Hk2 as <-.
      eexists (length (<[k := answered r]> (requests s))), _. simpl.
      split; [now apply list_lookup_middle|auto].
    + exists k2, r2. simpl. split; [|auto].
      apply lookup_app_l_Some. now rewrite list_lookup_insert_ne.
  - intros k2 r2 [[_ Hreq]|[_ <-]]%lookup_snoc_Some; simpl; eauto.
    apply list_lookup_insert_Some in Hreq as [(-> & <- & _)|[_ Hl]]; simpl; eauto.
Qed.

Section Machine.
Context `{Host}.

Lemma inv_httpSettled k outcome now s : inv s -> inv (httpSettled k outcome now s).
Proof.
  intros Hi. unfold httpSettled.
  destruct (requests s !! k) as [r|] eqn:Hk; [|exact Hi].
  destruct (req_pending r) eqn:Hpen; simpl; [|exact Hi].
  destruct outcome as [data|st].
  - unfold onLoaded. now apply inv_settle.
  - destruct (req_guidLiteral r && (st =? 400)).
    + exact (inv_retry k r s Hi Hk Hpen).
    + unfold onFailed. now apply inv_settle.
Qed.

(** *** A proof principle for the tasks of the page

    Whatever relates a state to itself, composes, and relates a state to the
    result of each primitive, relates a state to the result of a task. *)
Section StepRel.
Variable R : State -> State -> Prop.
Hypothesis R_refl : forall s, R s s.
Hypothesis R_trans : forall a b c, R a b -> R b c -> R a c.
Hypothesis R_tree : forall s t, R s (setTree t s).
Hypothesis R_tally : forall s n, R s (setTally n s).
Hypothesis R_load : forall s raw, R s (snd (loadInspectionHistoryForVessel raw s)).
Hypothesis R_http : forall s k o now, R s (httpSettled k o now s).

Lemma shipToggleListener_rel ship s : R s (shipToggleListener ship s).
Proof. unfold shipToggleListener. destruct (negb (ship_open ship)); auto. Qed.

Lemma fireShipToggles_rel before : forall after s, R s (fireShipToggles before after s).
Proof.
  induction before as [|b bs IH]; intros [|a rest] s; simpl; auto.
  eapply R_trans; [|apply IH].
  destruct (Bool.eqb _ _); auto using shipToggleListener_rel.
Qed.

Lemma fireShipTogglesIn_rel before : forall after s, R s (fireShipTogglesIn before after s).
Proof.
  induction before as [|b bs IH]; intros [|a rest] s; simpl; auto.
  eapply R_trans; [apply fireShipToggles_rel|apply IH].
Qed.

Lemma settleToggles_rel before s : R s (settleToggles before s).
Proof.
  unfold settleToggles. eapply R_trans; [apply R_tree|apply fireShipTogglesIn_rel].
Qed.

Lemma step_rel ev s : R s (step ev s).
Proof.
  destruct ev as [i|i j|raw|raw|k o now]; simpl; auto.
  - eapply R_trans; [apply R_tree|apply settleToggles_rel].
  - eapply R_trans; [apply R_tree|apply settleToggles_rel].
  - destruct (applyFilter raw (tree s)) as [[t ml] ms].
    eapply R_trans; [apply R_tree|].
    eapply R_trans; [apply R_tally|apply settleToggles_rel].
Qed.

End StepRel.

Lemma inv_step ev s : inv s -> inv (step ev s).
Proof.
  revert ev s. apply (step_rel (fun s s' => inv s -> inv s')); auto.
  - intros s t. apply inv_setTree.
  - intros s n. apply inv_setTally.
  - intros s raw. apply inv_load.
  - intros s k o now. apply inv_httpSettled.
Qed.

Lemma inv_run tr : forall s, inv s -> inv (run tr s).
Proof.
  unfold run. induction tr as [|ev tr IH]; simpl; intros s Hi; [exact Hi|].
  apply IH, inv_step, Hi.
Qed.

Lemma reachable_inv s : reachable s -> inv s.
Proof. intros (t & tr & ->). apply inv_run, inv_init. Qed.

Lemma reachable_step ev s : reachable s -> reachable (step ev s).
Proof.
  intros (t & tr & ->). exists t, (tr ++ [ev])%list. unfold run. now rewrite fold_left_app.
Qed.

Lemma reachable_run tr s : reachable s -> reachable (run tr s).
Proof.
  intros (t & tr0 & ->). exists t, (tr0 ++ tr)%list. unfold run. now rewrite fold_left_app.
Qed.

End Machine.

(** ** The lazy cache: loaded, failed and failing entries *)

Section Cache.
Context `{Host}.

Lemma reachable_id_nonempty s vesselId :
  reachable s -> entryState (__InspectionCache s !! vesselId) <> Idle -> vesselId <> "".
Proof.
  intros Hr Hs ->. apply Hs. now rewrite (inv_key s (reachable_inv s Hr)).
Qed.

(** C4. When the entry of a vessel is loaded,
    [loadInspectionHistoryForVessel] returns a promise that is already
    fulfilled with the cached rows; it calls no fetch, issues no GET and
    leaves the cache as it was. *)
Theorem C4_loaded_returns_cached_rows (raw : option string) (s : State) :
  reachable s ->
  entryState (__InspectionCache s !! normalizeGuid raw) = Loaded ->
  exists e, __InspectionCache s !! normalizeGuid raw = Some e
    /\ let '(p, s') := loadInspectionHistoryForVessel raw s in
       promises s' !! p = Some (Fulfilled (Rows (rows e)))
       /\ fetchLog s' = fetchLog s
       /\ requests s' = requests s
       /\ __InspectionCache s' = __InspectionCache s.
Proof.
  intros Hr Hs.
  assert (normalizeGuid raw <> "") as Hne
    by (apply (reachable_id_nonempty s); [exact Hr|rewrite Hs; discriminate]).
  pose proof (load_cases raw s Hne) as Hl. simpl in Hl. rewrite Hs in Hl.
  destruct Hl as (e & He & ->). exists e. split; [exact He|].
  unfold promiseResolve; simpl. repeat split.
  now apply list_lookup_middle.
Qed.

(** C3. When the entry of a vessel is in the failed state,
    [loadInspectionHistoryForVessel] starts a new fetch: the adapter is
    called once more for that vessel, a new GET is outstanding, and the
    promise returned is a new pending one. A final rejection of a fetch
    leaves the entry in that state, so the call after a failure always
    fetches again. *)
Theorem C3_failed_entry_fetches_again (raw : option string) (s : State) :
  reachable s ->
  entryState (__InspectionCache s !! normalizeGuid raw) = Failed ->
  let vesselId := normalizeGuid raw in
  (let '(p, s') := loadInspectionHistoryForVessel raw s in
   promises s !! p = None
   /\ promises s' !! p = Some Pending
   /\ fetchLog s' = (fetchLog s ++ [vesselId])%list
   /\ inflight vesselId p s'
   /\ entryState (__InspectionCache s' !! vesselId) = Loading)
  /\ (forall k r status now,
        requests s !! k = Some r -> req_pending r = true ->
        finalFailure r status = true ->
        entryState (__InspectionCache (step (EvHttp k (HttpFail status) now) s) !! req_vessel r)
        = Failed).
Proof.
  intros Hr Hs vesselId.
  assert (vesselId <> "") as Hne
    by (apply (reachable_id_nonempty s); [exact Hr|subst vesselId; rewrite Hs; discriminate]).
  split.
  - pose proof (load_cases raw s Hne) as Hl. simpl in Hl. rewrite Hs in Hl.
    rewrite Hl. unfold startFetch; simpl. fold vesselId.
    split; [|split; [|split; [|split]]].
    + apply lookup_ge_None_2. lia.
    + now apply list_lookup_middle.
    + reflexivity.
    + eexists (length (requests s)), _. split; [now apply list_lookup_middle|].
      simpl. auto.
    + now rewrite lookup_insert_eq.
  - intros k r st now Hk Hpen Hfin. simpl. unfold httpSettled.
    rewrite Hk, Hpen. simpl. unfold finalFailure in Hfin.
    apply negb_true_iff in Hfin. rewrite Hfin. unfold onFailed, settlePromise; simpl.
    now rewrite lookup_insert_eq.
Qed.

(** C2. When the fetch for a vessel fails (a rejection that is not
    answered by the retry), the entry of the vessel becomes
    [{ loaded: false, loading: false, rows: [] }] (the failed state), and the
    promise shared by everyone who joined the fetch is fulfilled with
    [{rows: [], error: true}]; no promise of the page is rejected. *)
Theorem C2_failure_is_a_result (s : State) (k : nat) (r : Request) (status now : Z) :
  reachable s ->
  requests s !! k = Some r -> req_pending r = true ->
  finalFailure r status = true ->
  let s' := step (EvHttp k (HttpFail status) now) s in
  __InspectionCache s' !! req_vessel r = Some failedEntry
  /\ entryState (__InspectionCache s' !! req_vessel r) = Failed
  /\ promises s !! req_promise r = Some Pending
  /\ promises s' !! req_promise r = Some (Fulfilled (RowsError []))
  /\ (forall raw, normalizeGuid raw = req_vessel r ->
        loadInspectionHistoryForVessel raw s = (req_promise r, s))
  /\ (forall p, promises s' !! p <> Some Rejected).
Proof.
  intros Hr Hk Hpen Hfin s'.
  pose proof (reachable_inv s Hr) as Hi.
  pose proof (inv_promise s Hi _ _ Hk Hpen) as Hp.
  assert (__InspectionCache s' !! req_vessel r = Some failedEntry
          /\ promises s' !! req_promise r = Some (Fulfilled (RowsError []))) as [Hc' Hp'].
  { subst s'. simpl. unfold httpSettled. rewrite Hk, Hpen. simpl.
    unfold finalFailure in Hfin. apply negb_true_iff in Hfin. rewrite Hfin.
    unfold onFailed, settlePromise; simpl. split.
    - now rewrite lookup_insert_eq.
    - apply list_lookup_insert_eq. now apply lookup_lt_Some in Hp. }
  repeat split; auto.
  - now rewrite Hc'.
  - intros raw E.
    assert (normalizeGuid raw <> "") as Hne by (rewrite E; eapply inv_named; eauto).
    pose proof (load_cases raw s Hne) as Hl. simpl in Hl.
    rewrite E, (inv_cache s Hi _ _ Hk Hpen) in Hl. simpl in Hl.
    destruct Hl as (e & p & He & Hpe & ->). injection He as <-. simpl in Hpe. congruence.
  - apply (inv_norej s'). subst s'. apply reachable_inv. now apply reachable_step.
Qed.

End Cache.


Lemma C4_witness :
  @reachable utcHost shipAloaded
  /\ entryState (__InspectionCache shipAloaded !! normalizeGuid (Some "{shipA}")) = Loaded
  /\ exists e, __InspectionCache shipAloaded !! normalizeGuid (Some "{shipA}") = Some e
       /\ let '(p, s') := loadInspectionHistoryForVessel (Some "{shipA}") shipAloaded in
          promises s' !! p = Some (Fulfilled (Rows (rows e)))
          /\ fetchLog s' = fetchLog shipAloaded
          /\ requests s' = requests shipAloaded
          /\ __InspectionCache s' = __InspectionCache shipAloaded.
Proof.
  assert (@reachable utcHost shipAloaded) as Hr by (eexists _, _; reflexivity).
  split; [exact Hr|]. split; [vm_compute; reflexivity|].
  apply (@C4_loaded_returns_cached_rows utcHost (Some "{shipA}") shipAloaded Hr).
  vm_compute; reflexivity.
Defined.

Example scenarioC_rows :
  __InspectionCache shipAloaded !! "shipA"
  = Some {| loaded := true; loading := false;
            rows := [{| date := "2025-03-15"; score := "98/100" |}]; promise := None |}
  /\ promises shipAloaded !! 0%nat
     = Some (Fulfilled (Rows [{| date := "2025-03-15"; score := "98/100" |}])).
Proof. split; vm_compute; reflexivity. Qed.

Lemma C3_witness :
  @reachable utcHost shipBfailed
  /\ entryState (__InspectionCache shipBfailed !! normalizeGuid (Some "shipB")) = Failed
  /\ let '(p, s') := loadInspectionHistoryForVessel (Some "shipB") shipBfailed in
     promises shipBfailed !! p = None
     /\ promises s' !! p = Some Pending
     /\ fetchLog s' = (fetchLog shipBfailed ++ ["shipB"])%list.
Proof.
  assert (@reachable utcHost shipBfailed) as Hr by (eexists _, _; reflexivity).
  assert (entryState (__InspectionCache shipBfailed !! normalizeGuid (Some "shipB")) = Failed)
    as Hs by (vm_compute; reflexivity).
  split; [exact Hr|]. split; [exact Hs|].
  destruct (@C3_failed_entry_fetches_again utcHost (Some "shipB") shipBfailed Hr Hs) as [W _].
  destruct (loadInspectionHistoryForVessel (Some "shipB") shipBfailed) as [p s'].
  destruct W as (W1 & W2 & W3 & _). auto.
Defined.

Example scenarioD :
  promises shipBfailed !! 0%nat = Some (Fulfilled (RowsError []))
  /\ fst (loadInspectionHistoryForVessel (Some "shipB") shipBfailed) = 1%nat
  /\ fetchLog (snd (loadInspectionHistoryForVessel (Some "shipB") shipBfailed))
     = ["shipB"; "shipB"].
Proof. repeat split; vm_compute; reflexivity. Qed.

Lemma C2_witness :
  let r := {| req_vessel := "shipB"; req_guidLiteral := true;
              req_promise := 0%nat; req_pending := true |} in
  @reachable utcHost shipBloading
  /\ requests shipBloading !! 0%nat = Some r
  /\ req_pending r = true
  /\ finalFailure r 500 = true
  /\ __InspectionCache (@step utcHost (EvHttp 0 (HttpFail 500) today) shipBloading) !! "shipB"
     = Some failedEntry
  /\ promises (@step utcHost (EvHttp 0 (HttpFail 500) today) shipBloading) !! 0%nat
     = Some (Fulfilled (RowsError [])).
Proof.
  intros r.
  assert (@reachable utcHost shipBloading) as Hr by (eexists _, _; reflexivity).
  assert (requests shipBloading !! 0%nat = Some r) as Hk by reflexivity.
  split; [exact Hr|]. split; [exact Hk|]. split; [reflexivity|]. split; [reflexivity|].
  destruct (@C2_failure_is_a_result utcHost shipBloading 0%nat r 500 today Hr Hk eq_refl eq_refl)
    as (W1 & _ & _ & W2 & _).
  split; [exact W1|exact W2].
Defined.

(** ** Deduplication *)

Lemma settleOnce_refl s : settleOnce s s.
Proof. intros p v Hp. now left. Qed.

Lemma settleOnce_trans a b c : settleOnce a b -> settleOnce b c -> settleOnce a c.
Proof.
  intros Hab Hbc p v Hp. destruct (Hab p v Hp) as [Hb|(-> & r & Hb)].
  - apply Hbc in Hb. exact Hb.
  - right. split; [reflexivity|]. exists r.
    destruct (Hbc _ _ Hb) as [Hc|(E & _)]; [exact Hc|discriminate].
Qed.

Lemma settleOnce_snoc s s' v :
  promises s' = (promises s ++ [v])%list -> settleOnce s s'.
Proof. intros E p w Hp. left. rewrite E. now apply lookup_app_l_Some. Qed.

Lemma fetchCount_snoc_ne vesselId other s s' :
  fetchLog s' = (fetchLog s ++ [other])%list -> other <> vesselId ->
  fetchCount vesselId s' = fetchCount vesselId s.
Proof.
  intros E Hne. unfold fetchCount. rewrite E, count_occ_app. simpl.
  destruct (String.string_dec other vesselId); [contradiction|lia].
Qed.

Lemma fetchCount_snoc_eq vesselId s s' :
  fetchLog s' = (fetchLog s ++ [vesselId])%list ->
  fetchCount vesselId s' = S (fetchCount vesselId s).
Proof.
  intros E. unfold fetchCount. rewrite E, count_occ_app. simpl.
  destruct (String.string_dec vesselId vesselId); [lia|contradiction].
Qed.

Lemma inflight_loading vesselId p s :
  inv s -> inflight vesselId p s ->
  __InspectionCache s !! vesselId = Some (loadingEntry p)
  /\ promises s !! p = Some Pending /\ vesselId <> "".
Proof.
  intros Hi (k & r & Hk & Hpen & <- & <-). repeat split.
  - eapply inv_cache; eauto.
  - eapply inv_promise; eauto.
  - eapply inv_named; eauto.
Qed.

(** While a GET for the vessel is outstanding, a call joins it: it returns
    the promise of the fetch and changes nothing. *)
Lemma load_joins raw vesselId p s :
  inv s -> inflight vesselId p s -> normalizeGuid raw = vesselId ->
  loadInspectionHistoryForVessel raw s = (p, s).
Proof.
  intros Hi Hf E. destruct (inflight_loading _ _ _ Hi Hf) as (Hc & _ & Hne).
  subst vesselId. pose proof (load_cases raw s Hne) as Hl. simpl in Hl.
  rewrite Hc in Hl. simpl in Hl. destruct Hl as (e & q & He & Hq & ->).
  injection He as <-. simpl in Hq. congruence.
Qed.

Section Dedup.
Context `{Host}.
Variable vesselId : string.
Variable p : nat.

Lemma dedupRel_refl s : dedupRel vesselId p s s.
Proof. intros Hi. split; [exact Hi|]. split; [apply settleOnce_refl|]. auto. Qed.

Lemma dedupRel_trans a b c :
  dedupRel vesselId p a b -> dedupRel vesselId p b c -> dedupRel vesselId p a c.
Proof.
  intros Hab Hbc Hi. destruct (Hab Hi) as (Hib & Sab & Fab).
  destruct (Hbc Hib) as (Hic & Sbc & Fbc).
  split; [exact Hic|]. split; [eapply settleOnce_trans; eauto|].
  intros Hf Hp.
  destruct (inflight_loading _ _ _ Hi Hf) as (_ & Hpa & _).
  assert (promises b !! p = Some Pending) as Hpb.
  { destruct (Sab _ _ Hpa) as [Hb|(_ & r & Hb)]; [exact Hb|].
    destruct (Sbc _ _ Hb) as [Hc|(E & _)]; [congruence|discriminate]. }
  destruct (Fab Hf Hpb) as [Hfb Ecb]. destruct (Fbc Hfb Hp) as [Hfc Ecc].
  split; [exact Hfc|congruence].
Qed.

Lemma dedupRel_setTree s t : dedupRel vesselId p s (setTree t s).
Proof.
  intros Hi. split; [now apply inv_setTree|]. split; [exact (settleOnce_refl s)|].
  intros Hf _. split; [exact Hf|reflexivity].
Qed.

Lemma dedupRel_setTally s n : dedupRel vesselId p s (setTally n s).
Proof.
  intros Hi. split; [now apply inv_setTally|]. split; [exact (settleOnce_refl s)|].
  intros Hf _. split; [exact Hf|reflexivity].
Qed.

Lemma dedupRel_promiseResolve s v : dedupRel vesselId p s (snd (promiseResolve v s)).
Proof.
  intros Hi. split; [now apply inv_promiseResolve|].
  split; [now apply (settleOnce_snoc _ _ (Fulfilled v))|].
  intros Hf _. split; [exact Hf|reflexivity].
Qed.

Lemma dedupRel_load s raw :
  dedupRel vesselId p s (snd (loadInspectionHistoryForVessel raw s)).
Proof.
  destruct (decide (normalizeGuid raw = "")) as [E|E].
  { rewrite load_empty by assumption. apply dedupRel_promiseResolve. }
  pose proof (load_cases raw s E) as Hl. simpl in Hl.
  assert (forall st, st = entryState (__InspectionCache s !! normalizeGuid raw) ->
            st <> Loading -> st <> Loaded ->
            loadInspectionHistoryForVessel raw s = startFetch (normalizeGuid raw) s ->
            dedupRel vesselId p s (snd (loadInspectionHistoryForVessel raw s))) as Hstart.
  { intros st Est N1 N2 Hld Hi. split; [now apply inv_load|]. rewrite Hld.
    split; [now apply (settleOnce_snoc _ _ Pending)|].
    intros Hf _. split.
    - destruct Hf as (k & r & Hk & Hf). exists k, r. split; [|exact Hf].
      simpl. now apply lookup_app_l_Some.
    - apply (fetchCount_snoc_ne _ (normalizeGuid raw)); [reflexivity|].
      intros Ev. destruct (inflight_loading _ _ _ Hi Hf) as (Hc & _).
      rewrite Ev, Hc in Est. simpl in Est. congruence. }
  destruct (entryState (__InspectionCache s !! normalizeGuid raw)) eqn:Hs.
  - eapply Hstart; eauto; congruence.
  - destruct Hl as (e & q & _ & _ & ->). apply dedupRel_refl.
  - destruct Hl as (e & _ & ->). apply dedupRel_promiseResolve.
  - eapply Hstart; eauto; congruence.
Qed.

Lemma dedupRel_http s k outcome now : dedupRel vesselId p s (httpSettled k outcome now s).
Proof.
  intros Hi. split; [now apply inv_httpSettled|].
  unfold httpSettled.
  destruct (requests s !! k) as [r|] eqn:Hk; [|split; [apply settleOnce_refl|auto]].
  destruct (req_pending r) eqn:Hpen; simpl; [|split; [apply settleOnce_refl|auto]].
  pose proof (inv_promise s Hi _ _ Hk Hpen) as Hpr.
  assert (forall v e,
    let s' := settlePromise (req_promise r) v e (req_vessel r)
                (setRequests (<[k := answered r]> (requests s)) s) in
    settleOnce s s'
    /\ (inflight vesselId p s -> promises s' !! p = Some Pending ->
        inflight vesselId p s' /\ fetchCount vesselId s' = fetchCount vesselId s)) as Hfinal.
  { intros v e s'. split.
    - intros q w Hq. subst s'; simpl.
      destruct (decide (req_promise r = q)) as [<-|Hne].
      + right. split; [congruence|]. exists v.
        apply list_lookup_insert_eq. now apply lookup_lt_Some in Hq.
      + left. now rewrite list_lookup_insert_ne.
    - intros (k0 & r0 & Hk0 & Hpen0 & Ev & Ep) Hp'. subst s'; simpl in *.
      destruct (decide (k = k0)) as [<-|Hne].
      + exfalso. rewrite Hk in Hk0. injection Hk0 as <-. subst p.
        rewrite list_lookup_insert_eq in Hp' by (now apply lookup_lt_Some in Hpr).
        discriminate.
      + split; [|reflexivity]. exists k0, r0. simpl.
        rewrite list_lookup_insert_ne by assumption. auto. }
  destruct outcome as [data|st].
  - apply Hfinal.
  - destruct (req_guidLiteral r && (st =? 400)); [|apply Hfinal].
    split; [exact (settleOnce_refl s)|].
    intros (k0 & r0 & Hk0 & Hpen0 & Ev & Ep) _. split; [|reflexivity].
    destruct (decide (k = k0)) as [<-|Hne].
    + rewrite Hk in Hk0. injection Hk0 as <-.
      exists (length (<[k := answered r]> (requests s))), 
        {| req_vessel := req_vessel r; req_guidLiteral := false;
           req_promise := req_promise r; req_pending := true |}.
      simpl. split; [now apply list_lookup_middle|auto].
    + exists k0, r0. simpl. split; [|auto].
      apply lookup_app_l_Some. now rewrite list_lookup_insert_ne.
Qed.

Lemma dedupRel_step ev s : dedupRel vesselId p s (step ev s).
Proof.
  revert ev s. apply step_rel.
  - exact dedupRel_refl.
  - exact dedupRel_trans.
  - exact dedupRel_setTree.
  - exact dedupRel_setTally.
  - exact dedupRel_load.
  - exact dedupRel_http.
Qed.

Lemma dedupRel_run tr : forall s, dedupRel vesselId p s (run tr s).
Proof.
  unfold run. induction tr as [|ev tr IH]; simpl; intros s; [apply dedupRel_refl|].
  eapply dedupRel_trans; [apply dedupRel_step|apply IH].
Qed.

End Dedup.

Section DedupTheorem.
Context `{Host}.

Lemma fulfilled_stays tr s p v :
  inv s -> promises s !! p = Some (Fulfilled v) ->
  promises (run tr s) !! p = Some (Fulfilled v).
Proof.
  intros Hi Hp. destruct (dedupRel_run "" p tr s Hi) as (_ & Hs & _).
  destruct (Hs _ _ Hp) as [Hp'|(E & _)]; [exact Hp'|discriminate].
Qed.

Lemma startFetch_inflight vesselId s :
  inflight vesselId (fst (startFetch vesselId s)) (snd (startFetch vesselId s)).
Proof.
  exists (length (requests s)), 
    {| req_vessel := vesselId; req_guidLiteral := true;
       req_promise := length (promises s); req_pending := true |}.
  simpl. split; [now apply list_lookup_middle|auto].
Qed.

(** A call whose promise is still pending later on has a GET outstanding
    for its vessel right after the call. *)
Lemma pending_call_inflight raw tr s :
  inv s ->
  promises (run tr (snd (loadInspectionHistoryForVessel raw s)))
    !! fst (loadInspectionHistoryForVessel raw s) = Some Pending ->
  inflight (normalizeGuid raw) (fst (loadInspectionHistoryForVessel raw s))
           (snd (loadInspectionHistoryForVessel raw s)).
Proof.
  intros Hi Hp. pose proof (inv_load raw s Hi) as Hi1.
  assert (forall v, loadInspectionHistoryForVessel raw s = promiseResolve v s -> False) as Hres.
  { intros v Hl. rewrite Hl in Hi1, Hp. unfold promiseResolve in *; simpl in *.
    erewrite fulfilled_stays in Hp; [discriminate|exact Hi1|].
    simpl. now apply list_lookup_middle. }
  destruct (decide (normalizeGuid raw = "")) as [E|E].
  { exfalso. eapply Hres, load_empty, E. }
  pose proof (load_cases raw s E) as Hl. simpl in Hl.
  destruct (entryState (__InspectionCache s !! normalizeGuid raw)) eqn:Hs.
  - rewrite Hl. apply startFetch_inflight.
  - destruct Hl as (e & q & He & Hq & ->). simpl. eapply inv_entry; eauto.
  - destruct Hl as (e & _ & Hl). exfalso. eapply Hres, Hl.
  - rewrite Hl. apply startFetch_inflight.
Qed.

(** C1. Let [p] be the promise a call of [loadInspectionHistoryForVessel]
    returns for a vessel. After any tasks of the page, as long as [p] is
    still pending, a further call for the same vessel returns [p] itself and
    changes nothing, and the adapter has not been called for that vessel
    since the first call returned. When no fetch was in flight before the
    first call, [p] is a new promise and the first call called the adapter
    once: one adapter call in all. *)
Theorem C1_concurrent_calls_share_one_fetch
    (raw raw2 : option string) (tr : list Event) (s : State) :
  reachable s ->
  normalizeGuid raw2 = normalizeGuid raw ->
  let '(p, s1) := loadInspectionHistoryForVessel raw s in
  let s2 := run tr s1 in
  promises s2 !! p = Some Pending ->
  loadInspectionHistoryForVessel raw2 s2 = (p, s2)
  /\ fetchCount (normalizeGuid raw) s2 = fetchCount (normalizeGuid raw) s1
  /\ (entryState (__InspectionCache s !! normalizeGuid raw) <> Loading ->
      promises s !! p = None
      /\ fetchCount (normalizeGuid raw) s1 = S (fetchCount (normalizeGuid raw) s)).
Proof.
  intros Hr E2. pose proof (reachable_inv s Hr) as Hi.
  pose proof (inv_load raw s Hi) as Hi1.
  pose proof (pending_call_inflight raw tr s Hi) as Hf.
  pose proof (load_cases raw s) as Hl. simpl in Hl.
  destruct (loadInspectionHistoryForVessel raw s) as [p s1] eqn:El. simpl in *.
  intros Hp. specialize (Hf Hp).
  destruct (dedupRel_run (normalizeGuid raw) p tr s1 Hi1) as (Hi2 & _ & Hd).
  destruct (Hd Hf Hp) as [Hf2 Hc2].
  split; [now apply (load_joins raw2 (normalizeGuid raw))|]. split; [exact Hc2|].
  intros Hnl.
  destruct (inflight_loading _ _ _ Hi1 Hf) as (_ & _ & Hne). specialize (Hl Hne).
  assert ((p, s1) = startFetch (normalizeGuid raw) s) as Es.
  { destruct (entryState (__InspectionCache s !! normalizeGuid raw)) eqn:Hs;
      try congruence.
    destruct Hl as (e & _ & Hl). exfalso.
    assert (promises (run tr s1) !! p = Some (Fulfilled (Rows (rows e)))) as Hp'
      by (apply fulfilled_stays; [exact Hi1|];
          unfold promiseResolve in Hl; injection Hl as -> ->; simpl;
          now apply list_lookup_middle).
    congruence. }
  unfold startFetch in Es. injection Es as -> ->. split.
  - apply lookup_ge_None_2. lia.
  - now apply fetchCount_snoc_eq.
Qed.

End DedupTheorem.

Lemma C1_witness :
  let s := initState catalogX in
  let tr := [EvToggleLiner 0; EvToggleShip 0 0; EvLoad (Some "shipB"); EvFilter "ship"] in
  @reachable utcHost s
  /\ normalizeGuid (Some " {shipA} ") = normalizeGuid (Some "shipA")
  /\ let '(p, s1) := loadInspectionHistoryForVessel (Some "shipA") s in
     let s2 := @run utcHost tr s1 in
     promises s2 !! p = Some Pending
     /\ loadInspectionHistoryForVessel (Some " {shipA} ") s2 = (p, s2)
     /\ fetchCount "shipA" s2 = fetchCount "shipA" s1.
Proof.
  intros s tr.
  assert (@reachable utcHost s) as Hr by (exists catalogX, []; reflexivity).
  split; [exact Hr|]. split; [reflexivity|].
  pose proof (@C1_concurrent_calls_share_one_fetch utcHost
                (Some "shipA") (Some " {shipA} ") tr s Hr eq_refl) as W.
  destruct (loadInspectionHistoryForVessel (Some "shipA") s) as [p s1] eqn:El.
  assert (p = 0%nat /\ s1 = snd (loadInspectionHistoryForVessel (Some "shipA") s)) as [-> Es1]
    by (rewrite El; split; [vm_compute in El; congruence|reflexivity]).
  simpl in W |- *.
  assert (promises (@run utcHost tr s1) !! 0%nat = Some Pending) as Hp
    by (rewrite Es1; vm_compute; reflexivity).
  destruct (W Hp) as (W1 & W2 & _).
  split; [exact Hp|]. split; [exact W1|exact W2].
Defined.

(** ** Toggle events *)

Lemma setShipOpen_closed ship : ship_open ship = false -> setShipOpen false ship = ship.
Proof. destruct ship; simpl; intros ->; reflexivity. Qed.

Lemma map_setShipOpen_closed l :
  Forall (fun ship => ship_open ship = false) l -> map (setShipOpen false) l = l.
Proof.
  induction 1 as [|x l Hx _ IH]; simpl; [reflexivity|].
  now rewrite IH, setShipOpen_closed.
Qed.

Lemma Forall_closed_map l :
  Forall (fun ship => ship_open ship = false) (map (setShipOpen false) l).
Proof. induction l; simpl; constructor; auto. Qed.

(** Ships that were not opened cause no load. *)
Lemma fireShipToggles_map (f : Ship -> Ship) l s :
  (forall x, ship_open (f x) = true -> ship_open x = true) ->
  fireShipToggles l (map f l) s = s.
Proof.
  intros Hf. induction l as [|x l IH]; simpl; [reflexivity|].
  destruct (Bool.eqb (ship_open x) (ship_open (f x))) eqn:E; [exact IH|].
  unfold shipToggleListener. destruct (ship_open (f x)) eqn:Ef; simpl; [|exact IH].
  rewrite (Hf x Ef) in E. discriminate.
Qed.

Lemma fireShipToggles_same l s : fireShipToggles l l s = s.
Proof.
  rewrite <- (map_id l) at 2. apply fireShipToggles_map. auto.
Qed.

Lemma fireShipTogglesIn_calm before after :
  Forall2 (fun b a => forall s, fireShipToggles (liner_ships b) (liner_ships a) s = s)
          before after ->
  forall s, fireShipTogglesIn before after s = s.
Proof.
  induction 1 as [|b a bs rest Hba _ IH]; intros s; simpl; [reflexivity|].
  now rewrite Hba, IH.
Qed.

Lemma fireLinerToggles_settled before after :
  Forall2 (fun b a => Bool.eqb (liner_open b) (liner_open a) = false ->
                      linerToggleListener a = a) before after ->
  fireLinerToggles before after = after.
Proof.
  induction 1 as [|b a bs rest Hba _ IH]; simpl; [reflexivity|].
  rewrite IH. destruct (Bool.eqb _ _); [reflexivity|]. now rewrite Hba.
Qed.

Lemma fireLinerToggles_same t : fireLinerToggles t t = t.
Proof.
  apply fireLinerToggles_settled, Forall_Forall2_diag, Forall_forall.
  intros x _ E. now rewrite Bool.eqb_reflx in E.
Qed.

Lemma fireLinerToggles_flip t : forall i,
  fireLinerToggles t (alter flipLiner i t)
  = alter (fun liner => linerToggleListener (flipLiner liner)) i t.
Proof.
  induction t as [|x t IH]; intros [|i]; try reflexivity.
  - change (fireLinerToggles (x :: t) (flipLiner x :: t)
            = linerToggleListener (flipLiner x) :: t).
    cbn [fireLinerToggles]. rewrite fireLinerToggles_same.
    now destruct x as [? [] ? ?].
  - change (fireLinerToggles (x :: t) (x :: alter flipLiner i t)
            = x :: alter (fun liner => linerToggleListener (flipLiner liner)) i t).
    cbn [fireLinerToggles]. now rewrite IH, Bool.eqb_reflx.
Qed.

Lemma calm_toggled (x : Liner) s :
  fireShipToggles (liner_ships x) (liner_ships (linerToggleListener (flipLiner x))) s = s.
Proof.
  unfold linerToggleListener. destruct (negb (liner_open (flipLiner x))); simpl.
  - apply fireShipToggles_map. intros y Hy. discriminate.
  - apply fireShipToggles_same.
Qed.

Section Tree.
Context `{Host}.

(** Toggling a liner changes the tree only: the browser flips [open] and the
    listener of the liner runs; no ship listener loads anything. *)
Lemma step_toggleLiner i s :
  step (EvToggleLiner i) s
  = setTree (alter (fun liner => linerToggleListener (flipLiner liner)) i (tree s)) s.
Proof.
  simpl. unfold settleToggles. simpl. rewrite fireLinerToggles_flip.
  apply fireShipTogglesIn_calm.
  apply Forall2_alter_r.
  - apply Forall_Forall2_diag, Forall_forall. intros x _ s0. apply fireShipToggles_same.
  - intros x y Hx Hy _ s0. rewrite Hx in Hy. injection Hy as <-. apply calm_toggled.
Qed.

(** C5. Closing a liner (toggling one that is open) leaves it closed with
    every ship below it closed; the other liners, the cache, the promises,
    the requests and the fetch log are untouched. *)
Theorem C5_closing_liner_closes_ships (i : nat) (liner : Liner) (s : State) :
  tree s !! i = Some liner ->
  liner_open liner = true ->
  let s' := step (EvToggleLiner i) s in
  (exists liner', tree s' !! i = Some liner'
     /\ liner_open liner' = false
     /\ Forall (fun ship => ship_open ship = false) (liner_ships liner')
     /\ map ship_label (liner_ships liner') = map ship_label (liner_ships liner))
  /\ (forall j, j <> i -> tree s' !! j = tree s !! j)
  /\ __InspectionCache s' = __InspectionCache s
  /\ promises s' = promises s
  /\ requests s' = requests s
  /\ fetchLog s' = fetchLog s.
Proof.
  intros Hi Hopen s'. subst s'. rewrite step_toggleLiner. simpl.
  split; [|split; [|repeat split]].
  - exists (linerToggleListener (flipLiner liner)).
    rewrite list_lookup_alter_eq, Hi. split; [reflexivity|].
    unfold linerToggleListener, flipLiner. simpl. rewrite Hopen. simpl.
    split; [reflexivity|]. split; [apply Forall_closed_map|].
    rewrite map_map. reflexivity.
  - intros j Hj. now rewrite list_lookup_alter_ne.
Qed.

End Tree.

Lemma C5_witness :
  let s := setTree openedX shipAloaded in
  exists liner, tree s !! 0%nat = Some liner /\ liner_open liner = true
    /\ tree (@step utcHost (EvToggleLiner 0) s) = catalogX
    /\ __InspectionCache (@step utcHost (EvToggleLiner 0) s) = __InspectionCache s.
Proof.
  intros s. eexists. split; [reflexivity|]. split; [reflexivity|].
  split; [vm_compute; reflexivity|].
  eapply (@C5_closing_liner_closes_ships utcHost 0%nat _ s); reflexivity.
Defined.

(** ** The search filter *)

Lemma shipMatch_setOpen q b ship : shipMatch q (setShipOpen b ship) = shipMatch q ship.
Proof. reflexivity. Qed.

Lemma shipMatch_setVisible q b ship : shipMatch q (setShipVisible b ship) = shipMatch q ship.
Proof. reflexivity. Qed.

Lemma shipMatch_showShip q lm ship : shipMatch q (showShip q lm ship) = shipMatch q ship.
Proof. unfold showShip. now destruct (negb _). Qed.

Lemma showShips_spec q lm l : forall n,
  showShips q lm l n
  = (map (showShip q lm) l, (n + length (List.filter (shipShown q lm) l))%nat).
Proof.
  induction l as [|ship l IH]; intros n; simpl.
  - f_equal. lia.
  - unfold showShip, shipShown at 1.
    destruct (negb (Js.truthy q) || lm || shipMatch q ship) eqn:E; simpl;
      rewrite IH; f_equal; simpl; lia.
Qed.

Lemma filterLiner_spec q liner a b :
  filterLiner q liner a b
  = (filteredLiner q liner,
     if linerShown q liner then S a else a,
     if linerShown q liner then (b + shipsShown q liner)%nat else b).
Proof.
  unfold filteredLiner, filterLiner, linerShown, shipsShown, linerMatches.
  destruct (negb (Js.truthy q)
            || nameMatches q (Js.toLowerCase (textOf (liner_label liner)))
            || existsb (shipMatch q) (liner_ships liner)); simpl; [|reflexivity].
  rewrite !showShips_spec. destruct (Js.truthy q); reflexivity.
Qed.

Lemma filterLiners_fst q l : forall a b,
  fst (fst (filterLiners q l a b)) = map (filteredLiner q) l.
Proof.
  induction l as [|liner l IH]; intros a b; simpl; [reflexivity|].
  rewrite filterLiner_spec. specialize (IH (if linerShown q liner then S a else a)
    (if linerShown q liner then (b + shipsShown q liner)%nat else b)).
  destruct (filterLiners q l _ _) as [[rest ml] ms]. simpl in *. now rewrite IH.
Qed.

(** The three forms of a liner after the filter. *)
Lemma filteredLiner_cases q liner :
  filteredLiner q liner =
    if negb (linerShown q liner)
    then {| liner_label := liner_label liner; liner_open := false; liner_visible := false;
            liner_ships := map (fun ship => setShipVisible true (setShipOpen false ship))
                               (liner_ships liner) |}
    else if Js.truthy q
    then {| liner_label := liner_label liner; liner_open := true; liner_visible := true;
            liner_ships := map (showShip q (linerMatches q liner)) (liner_ships liner) |}
    else {| liner_label := liner_label liner; liner_open := false; liner_visible := true;
            liner_ships := map (setShipOpen false)
                             (map (showShip q (linerMatches q liner)) (liner_ships liner)) |}.
Proof.
  unfold filteredLiner, filterLiner, linerShown, linerMatches.
  destruct (negb (Js.truthy q)
            || nameMatches q (Js.toLowerCase (textOf (liner_label liner)))
            || existsb (shipMatch q) (liner_ships liner)); simpl; [|reflexivity].
  rewrite showShips_spec. destruct (Js.truthy q); reflexivity.
Qed.

Lemma existsb_shipMatch_map q (f : Ship -> Ship) l :
  (forall x, shipMatch q (f x) = shipMatch q x) ->
  existsb (shipMatch q) (map f l) = existsb (shipMatch q) l.
Proof. intros Hf. induction l; simpl; [reflexivity|]. now rewrite Hf, IHl. Qed.

Lemma filter_length_map (P : Ship -> bool) (f : Ship -> Ship) l :
  (forall x, P (f x) = P x) ->
  length (List.filter P (map f l)) = length (List.filter P l).
Proof.
  intros Hf. induction l as [|x l IH]; simpl; [reflexivity|].
  rewrite Hf. destruct (P x); simpl; now rewrite IH.
Qed.

(** The filter reads labels only, and it does not change them. *)
Lemma filteredLiner_label q liner : liner_label (filteredLiner q liner) = liner_label liner.
Proof.
  rewrite filteredLiner_cases.
  destruct (negb (linerShown q liner)); [reflexivity|]. now destruct (Js.truthy q).
Qed.

Lemma filteredLiner_ships q liner :
  exists f, liner_ships (filteredLiner q liner) = map f (liner_ships liner)
    /\ (forall x, ship_label (f x) = ship_label x /\ ship_vessel_id (f x) = ship_vessel_id x)
    /\ (forall x, ship_open (f x) = true -> ship_open x = true).
Proof.
  rewrite filteredLiner_cases.
  destruct (negb (linerShown q liner)); [|destruct (Js.truthy q)]; simpl.
  - eexists. split; [reflexivity|]. split; [auto|]. intros x Hx. discriminate.
  - eexists. split; [reflexivity|]. unfold showShip.
    split; intros x; destruct (negb _); simpl; auto. discriminate.
  - rewrite map_map. eexists. split; [reflexivity|]. unfold showShip.
    split; intros x; destruct (negb _); simpl; auto; discriminate.
Qed.

Lemma shipMatch_label q x y : ship_label x = ship_label y -> shipMatch q x = shipMatch q y.
Proof. unfold shipMatch. now intros ->. Qed.

Lemma linerMatches_filtered q liner :
  linerMatches q (filteredLiner q liner) = linerMatches q liner.
Proof. unfold linerMatches. now rewrite filteredLiner_label. Qed.

Lemma linerShown_filtered q liner :
  linerShown q (filteredLiner q liner) = linerShown q liner.
Proof.
  unfold linerShown. rewrite linerMatches_filtered.
  destruct (filteredLiner_ships q liner) as (f & -> & Hf & _).
  rewrite existsb_shipMatch_map; [reflexivity|].
  intros x. apply shipMatch_label, Hf.
Qed.

Lemma shipsShown_filtered q liner :
  shipsShown q (filteredLiner q liner) = shipsShown q liner.
Proof.
  unfold shipsShown. rewrite linerMatches_filtered.
  destruct (filteredLiner_ships q liner) as (f & -> & Hf & _).
  apply filter_length_map. intros x. unfold shipShown.
  now rewrite (shipMatch_label q (f x) x) by apply Hf.
Qed.

Lemma showShip_idem q lm ship : showShip q lm (showShip q lm ship) = showShip q lm ship.
Proof.
  unfold showShip at 1. rewrite shipMatch_showShip. unfold showShip.
  now destruct (negb (Js.truthy q) || lm || shipMatch q ship).
Qed.

Lemma showShip_closed q lm ship :
  showShip q lm (setShipOpen false (showShip q lm ship)) = setShipOpen false (showShip q lm ship).
Proof.
  unfold showShip at 1. rewrite shipMatch_setOpen, shipMatch_showShip. unfold showShip.
  now destruct (negb (Js.truthy q) || lm || shipMatch q ship).
Qed.

Lemma filteredLiner_idem q liner :
  filteredLiner q (filteredLiner q liner) = filteredLiner q liner.
Proof.
  rewrite (filteredLiner_cases q (filteredLiner q liner)).
  rewrite linerShown_filtered, linerMatches_filtered, filteredLiner_label.
  rewrite (filteredLiner_cases q liner).
  destruct (negb (linerShown q liner)); [|destruct (Js.truthy q)]; simpl.
  - now rewrite map_map.
  - rewrite map_map. f_equal. apply map_ext. intros x. apply showShip_idem.
  - rewrite !map_map. f_equal. apply map_ext. intros x. simpl.
    now rewrite showShip_closed.
Qed.

Lemma filterLiners_idem q l : forall a b,
  filterLiners q (map (filteredLiner q) l) a b = filterLiners q l a b.
Proof.
  induction l as [|liner l IH]; intros a b; simpl; [reflexivity|].
  rewrite !filterLiner_spec, linerShown_filtered, shipsShown_filtered, filteredLiner_idem.
  now rewrite IH.
Qed.

(** After the filter no [toggle] listener has anything left to do. *)
Lemma filteredLiner_listener q liner :
  linerToggleListener (filteredLiner q liner) = filteredLiner q liner.
Proof.
  rewrite filteredLiner_cases. unfold linerToggleListener.
  destruct (negb (linerShown q liner)); [|destruct (Js.truthy q)]; simpl; try reflexivity.
  - unfold setLinerShips; simpl. now rewrite map_map.
  - unfold setLinerShips; simpl. f_equal. apply map_setShipOpen_closed, Forall_closed_map.
Qed.

Lemma settleToggles_filtered q t s :
  settleToggles t (setTree (map (filteredLiner q) t) s) = setTree (map (filteredLiner q) t) s.
Proof.
  unfold settleToggles. simpl.
  assert (fireLinerToggles t (map (filteredLiner q) t) = map (filteredLiner q) t) as ->.
  { apply fireLinerToggles_settled. apply Forall2_fmap_r, Forall_Forall2_diag, Forall_forall.
    intros x _ _. apply filteredLiner_listener. }
  apply fireShipTogglesIn_calm.
  apply Forall2_fmap_r, Forall_Forall2_diag, Forall_forall.
  intros x _ s0. simpl.
  destruct (filteredLiner_ships q x) as (f & -> & _ & Hf).
  now apply fireShipToggles_map.
Qed.

Section Search.
Context `{Host}.

(** An [input] event filters the tree and counts; it loads nothing. *)
Lemma step_filter raw s :
  step (EvFilter raw) s
  = setTally (snd (fst (applyFilter raw (tree s))), snd (applyFilter raw (tree s)))
      (setTree (fst (fst (applyFilter raw (tree s)))) s).
Proof.
  simpl. pose proof (filterLiners_fst (Js.toLowerCase (Js.trim raw)) (tree s) 0%nat 0%nat) as E.
  unfold applyFilter in *.
  destruct (filterLiners _ (tree s) _ _) as [[t ml] ms]. simpl in *. subst t.
  exact (settleToggles_filtered _ (tree s) (setTally (ml, ms) s)).
Qed.

End Search.

Lemma allReset_blank t : allReset (map (filteredLiner "") t).
Proof.
  apply List.Forall_forall. intros x [liner [<- _]]%in_map_iff.
  rewrite filteredLiner_cases. simpl. repeat split.
  apply List.Forall_forall. intros y [z [<- [w [<- _]]%in_map_iff]]%in_map_iff.
  split; reflexivity.
Qed.

Lemma shape_filtered q t : shape (map (filteredLiner q) t) = shape t.
Proof.
  unfold shape. rewrite map_map. apply map_ext. intros liner.
  rewrite filteredLiner_label. f_equal.
  destruct (filteredLiner_ships q liner) as (f & -> & Hf & _).
  rewrite map_map. apply map_ext. intros x. destruct (Hf x) as [-> ->]. reflexivity.
Qed.

Lemma applyFilter_tree raw t :
  fst (fst (applyFilter raw t)) = map (filteredLiner (Js.toLowerCase (Js.trim raw))) t.
Proof. apply filterLiners_fst. Qed.

Lemma applyFilter_blank raw t :
  blank raw = true -> fst (fst (applyFilter raw t)) = map (filteredLiner "") t.
Proof. intros Hb. now rewrite applyFilter_tree, trim_blank. Qed.

Section SearchTheorems.
Context `{Host}.

(** C6. A query that is empty or consists of whitespace only makes
    [applyFilter] leave every liner and every ship visible and closed, from
    any tree, in particular from the tree a preceding filter produced; the
    nodes themselves stay the same. *)
Theorem C6_blank_query_resets_tree (raw q : string) (t : list Liner) (s : State) :
  blank raw = true ->
  allReset (fst (fst (applyFilter raw t)))
  /\ shape (fst (fst (applyFilter raw t))) = shape t
  /\ allReset (fst (fst (applyFilter raw (fst (fst (applyFilter q t))))))
  /\ allReset (tree (step (EvFilter raw) (step (EvFilter q) s))).
Proof.
  intros Hb. rewrite !step_filter. simpl.
  rewrite !(applyFilter_blank raw) by assumption.
  repeat split; try apply allReset_blank. apply shape_filtered.
Qed.

(** C7. Applying [applyFilter] twice with the same query gives the tree
    and the counters of applying it once; two consecutive [input] events
    with the same text leave the page in the state of one. *)
Theorem C7_filter_idempotent (raw : string) (t : list Liner) (s : State) :
  applyFilter raw (fst (fst (applyFilter raw t))) = applyFilter raw t
  /\ step (EvFilter raw) (step (EvFilter raw) s) = step (EvFilter raw) s.
Proof.
  assert (forall t0, applyFilter raw (fst (fst (applyFilter raw t0))) = applyFilter raw t0) as Hf.
  { intros t0. rewrite applyFilter_tree. apply filterLiners_idem. }
  split; [apply Hf|].
  rewrite (step_filter raw (step (EvFilter raw) s)), (step_filter raw s). simpl.
  rewrite Hf. reflexivity.
Qed.

(** C8. When the query occurs in the name of a liner, the liner is shown
    and opened and every ship below it is shown, whether or not the name of
    any ship matches. For the catalog [{GroupX: [Ship1, Ship2]}] and the
    query ["groupx"], where no ship name matches, the counters are
    [matchedLiners = 1] and [matchedShips = 2]. *)
Theorem C8_liner_name_match_shows_all_ships :
  (forall (raw : string) (t : list Liner) (i : nat) (liner : Liner),
     let q := Js.toLowerCase (Js.trim raw) in
     q <> "" ->
     t !! i = Some liner ->
     Js.indexOf (Js.toLowerCase (textOf (liner_label liner))) q <> -1 ->
     exists liner', fst (fst (applyFilter raw t)) !! i = Some liner'
       /\ liner_visible liner' = true
       /\ liner_open liner' = true
       /\ Forall (fun ship => ship_visible ship = true) (liner_ships liner')
       /\ map ship_label (liner_ships liner') = map ship_label (liner_ships liner))
  /\ existsb (shipMatch "groupx") (flat_map liner_ships catalogX) = false
  /\ (snd (fst (applyFilter "groupx" catalogX)), snd (applyFilter "groupx" catalogX))
     = (1%nat, 2%nat)
  /\ tally (step (EvFilter "groupx") (initState catalogX)) = (1%nat, 2%nat).
Proof.
  split; [|split; [reflexivity|split; [reflexivity|]]].
  - intros raw t i liner q Hq Hi Hm.
    assert (linerMatches q liner = true) as Hlm.
    { unfold linerMatches, nameMatches. apply orb_true_iff. right.
      apply negb_true_iff, Z.eqb_neq, Hm. }
    exists (filteredLiner q liner). split.
    { rewrite applyFilter_tree. fold q. now rewrite list_lookup_fmap, Hi. }
    rewrite filteredLiner_cases. unfold linerShown. rewrite Hlm.
    rewrite orb_true_r. simpl. apply truthy_true in Hq. rewrite Hq. simpl.
    repeat split.
    + apply List.Forall_forall. intros y [x [<- _]]%in_map_iff.
      unfold showShip. rewrite orb_true_r. reflexivity.
    + rewrite map_map. apply map_ext. intros x. unfold showShip.
      now destruct (negb _).
  - rewrite step_filter. reflexivity.
Qed.

End SearchTheorems.

Lemma C6_witness :
  blank "   " = true
  /\ allReset (fst (fst (applyFilter "   " (fst (fst (applyFilter "ship1" openedX))))))
  /\ fst (fst (applyFilter "   " (fst (fst (applyFilter "ship1" openedX))))) = catalogX.
Proof.
  split; [reflexivity|]. split; [|reflexivity].
  apply (@C6_blank_query_resets_tree utcHost "   " "ship1" openedX (initState openedX)).
  reflexivity.
Defined.

Lemma C8_witness :
  Js.toLowerCase (Js.trim " GroupX ") <> ""
  /\ catalogX !! 0%nat = Some linerX
  /\ Js.indexOf (Js.toLowerCase (textOf (liner_label linerX)))
                (Js.toLowerCase (Js.trim " GroupX ")) <> -1
  /\ exists liner', fst (fst (applyFilter " GroupX " catalogX)) !! 0%nat = Some liner'
       /\ liner_visible liner' = true
       /\ liner_open liner' = true
       /\ Forall (fun ship => ship_visible ship = true) (liner_ships liner').
Proof.
  assert (Js.toLowerCase (Js.trim " GroupX ") <> "") as Hq by discriminate.
  assert (Js.indexOf (Js.toLowerCase (textOf (liner_label linerX)))
                     (Js.toLowerCase (Js.trim " GroupX ")) <> -1) as Hm by discriminate.
  split; [exact Hq|]. split; [reflexivity|]. split; [exact Hm|].
  destruct (proj1 (@C8_liner_name_match_shows_all_ships utcHost) " GroupX " catalogX 0%nat
              linerX Hq eq_refl Hm) as (liner' & W1 & W2 & W3 & W4 & _).
  exists liner'. auto.
Defined.

(** ** The rows of a loaded entry *)


Lemma compareRows_pos x y : (0 <? compareRows x y) = Js.ltb (date x) (date y).
Proof.
  unfold compareRows. destruct (Js.ltb (date x) (date y)); [reflexivity|].
  now destruct (Js.ltb (date y) (date x)).
Qed.





(** [formatScore] on each kind of score. *)
Example formatScore_cases :
  formatScore ScoreNull = ""
  /\ formatScore ScoreUndefined = ""
  /\ formatScore ScoreEmptyString = ""
  /\ formatScore (ScoreNumber (Js.Integer 98 eq_refl)) = "98/100"
  /\ formatScore (ScoreNumber (Js.Integer (-7) eq_refl)) = "-7/100"
  /\ formatScore (ScoreNumber (Js.Integer 9007199254740991 eq_refl)) = "9007199254740991/100"
  /\ formatScore (ScoreNumber Js.NaN) = "NaN"
  /\ formatScore (ScoreNumber (Js.Infinity true)) = "-Infinity".
Proof. vm_compute. tauto. Qed.

Section Rows.
Context `{Host}.

Lemma pushRow_keptRow now acc r :
  pushRow now acc r = (acc ++ match keptRow now r with Some d => [d] | None => [] end)%list.
Proof.
  unfold pushRow, keptRow. destruct r as [r'|]; [|now rewrite app_nil_r].
  destruct (ethi_inspectionenddateandtime r') as [iso|]; [|now rewrite app_nil_r].
  destruct (Js.truthy iso); cbn [negb andb]; [|now rewrite app_nil_r].
  destruct (isWithinLastYears (Some iso) 5 now); cbn [negb];
    [reflexivity|now rewrite app_nil_r].
Qed.

Lemma fold_pushRow now l : forall acc,
  fold_left (pushRow now) l acc = (acc ++ omap (keptRow now) l)%list.
Proof.
  induction l as [|r l IH]; intros acc; simpl; [now rewrite app_nil_r|].
  rewrite IH, pushRow_keptRow. rewrite <- app_assoc. f_equal.
  now destruct (keptRow now r).
Qed.



End Rows.



(** * Further properties of the lazy cache *)

Section CacheInvariants.
Context `{Host}.

(** X1. In every reachable state at most one GET is outstanding per vessel,
    and while it is, the entry of the vessel is the loading entry that
    carries the promise of that fetch, which is pending. *)
Theorem one_outstanding_get_per_vessel (s : State) (k1 k2 : nat) (r1 r2 : Request) :
  reachable s ->
  requests s !! k1 = Some r1 -> req_pending r1 = true ->
  requests s !! k2 = Some r2 -> req_pending r2 = true ->
  req_vessel r1 = req_vessel r2 ->
  k1 = k2
  /\ __InspectionCache s !! req_vessel r1 = Some (loadingEntry (req_promise r1))
  /\ promises s !! req_promise r1 = Some Pending.
Proof.
  intros Hr H1 P1 H2 P2 E. pose proof (reachable_inv s Hr) as Hi.
  split; [eapply inv_vessel; eauto|].
  split; [eapply inv_cache; eauto|eapply inv_promise; eauto].
Qed.

(** X2. A loading entry never dangles: in every reachable state an entry in
    the loading state has a GET outstanding for its vessel, and its promise
    is pending. *)
Theorem loading_entry_has_outstanding_get (s : State) (vesselId : string) :
  reachable s ->
  entryState (__InspectionCache s !! vesselId) = Loading ->
  exists p, __InspectionCache s !! vesselId = Some (loadingEntry p)
    /\ inflight vesselId p s
    /\ promises s !! p = Some Pending.
Proof.
  intros Hr Hs. pose proof (reachable_inv s Hr) as Hi.
  destruct (__InspectionCache s !! vesselId) as [e|] eqn:Hc; [|discriminate].
  simpl in Hs. destruct (loaded e) eqn:Hl; [discriminate|].
  destruct (loading e) eqn:Hg; [|discriminate].
  destruct (promise e) as [p|] eqn:Hp; [|discriminate].
  exists p. pose proof (inv_entry s Hi _ _ _ Hc Hp) as Hf.
  destruct (inflight_loading _ _ _ Hi Hf) as (Hc' & Hp' & _).
  repeat split; auto. now rewrite <- Hc, Hc'.
Qed.

End CacheInvariants.

Lemma X1_witness :
  let r := {| req_vessel := "shipB"; req_guidLiteral := true;
              req_promise := 0%nat; req_pending := true |} in
  @reachable utcHost shipBloading
  /\ requests shipBloading !! 0%nat = Some r
  /\ req_pending r = true
  /\ __InspectionCache shipBloading !! "shipB" = Some (loadingEntry 0)
  /\ promises shipBloading !! 0%nat = Some Pending.
Proof.
  intros r.
  assert (@reachable utcHost shipBloading) as Hr by (eexists _, _; reflexivity).
  split; [exact Hr|]. split; [reflexivity|]. split; [reflexivity|].
  destruct (@one_outstanding_get_per_vessel utcHost shipBloading 0%nat 0%nat r r Hr
              eq_refl eq_refl eq_refl eq_refl eq_refl) as (_ & W1 & W2).
  split; [exact W1|exact W2].
Defined.

Lemma X2_witness :
  @reachable utcHost shipBloading
  /\ entryState (__InspectionCache shipBloading !! "shipB") = Loading
  /\ exists p, __InspectionCache shipBloading !! "shipB" = Some (loadingEntry p)
       /\ inflight "shipB" p shipBloading
       /\ promises shipBloading !! p = Some Pending.
Proof.
  assert (@reachable utcHost shipBloading) as Hr by (eexists _, _; reflexivity).
  split; [exact Hr|]. split; [vm_compute; reflexivity|].
  apply (@loading_entry_has_outstanding_get utcHost shipBloading "shipB" Hr).
  vm_compute; reflexivity.
Defined.

(** ** Entries are kept *)

Section Keep.
Context `{Host}.
Variable vesselId : string.

Lemma keepRel_refl s : keepRel vesselId s s.
Proof. intros Hi. split; [exact Hi|]. split; auto. Qed.

Lemma keepRel_trans a b c :
  keepRel vesselId a b -> keepRel vesselId b c -> keepRel vesselId a c.
Proof.
  intros Hab Hbc Hi. destruct (Hab Hi) as (Hib & Lab & Sab).
  destruct (Hbc Hib) as (Hic & Lbc & Sbc).
  split; [exact Hic|]. split; [|auto].
  intros e He Hl. destruct (Lab e He Hl) as [Hb Cb].
  destruct (Lbc e Hb Hl) as [Hc Cc]. split; [exact Hc|congruence].
Qed.

Lemma keepRel_frame s s' :
  inv s' ->
  __InspectionCache s' = __InspectionCache s -> fetchLog s' = fetchLog s ->
  keepRel vesselId s s'.
Proof.
  intros Hi' Ec El _. split; [exact Hi'|]. rewrite Ec. unfold fetchCount. rewrite El. auto.
Qed.

Lemma keepRel_startFetch other s :
  other <> "" ->
  (forall p, __InspectionCache s !! other <> Some (loadingEntry p)) ->
  (forall e, __InspectionCache s !! other = Some e -> loaded e = false) ->
  keepRel vesselId s (snd (startFetch other s)).
Proof.
  intros Hne Hfree Hnl Hi. split; [now apply inv_startFetch|]. simpl. split.
  - intros e He Hl.
    assert (other <> vesselId) as Hd by (intros ->; apply Hnl in He; congruence).
    rewrite lookup_insert_ne by assumption. split; [exact He|].
    now apply (fetchCount_snoc_ne _ other).
  - intros Hs. destruct (decide (other = vesselId)) as [->|Hd].
    + rewrite lookup_insert_eq. eauto.
    + now rewrite lookup_insert_ne.
Qed.

Lemma keepRel_load s raw :
  keepRel vesselId s (snd (loadInspectionHistoryForVessel raw s)).
Proof.
  destruct (decide (normalizeGuid raw = "")) as [E|E].
  { rewrite load_empty by assumption. intros Hi.
    apply keepRel_frame; auto. now apply inv_promiseResolve. }
  pose proof (load_cases raw s E) as Hl. simpl in Hl.
  destruct (entryState (__InspectionCache s !! normalizeGuid raw)) eqn:Hs.
  - rewrite Hl. apply keepRel_startFetch; auto.
    + intros p Hp. rewrite Hp in Hs. discriminate.
    + intros e He. rewrite He in Hs. simpl in Hs. now destruct (loaded e).
  - destruct Hl as (e & q & _ & _ & ->). apply keepRel_refl.
  - destruct Hl as (e & _ & ->). intros Hi.
    apply keepRel_frame; auto. now apply inv_promiseResolve.
  - rewrite Hl. apply keepRel_startFetch; auto.
    + intros p Hp. rewrite Hp in Hs. discriminate.
    + intros e He. rewrite He in Hs. simpl in Hs. now destruct (loaded e).
Qed.

Lemma keepRel_http s k outcome now : keepRel vesselId s (httpSettled k outcome now s).
Proof.
  intros Hi. split; [now apply inv_httpSettled|].
  unfold httpSettled.
  destruct (requests s !! k) as [r|] eqn:Hk; [|auto].
  destruct (req_pending r) eqn:Hpen; simpl; [|auto].
  pose proof (inv_cache s Hi _ _ Hk Hpen) as Hc.
  assert (forall v e,
    let s' := settlePromise (req_promise r) v e (req_vessel r)
                (setRequests (<[k := answered r]> (requests s)) s) in
    (forall e0, __InspectionCache s !! vesselId = Some e0 -> loaded e0 = true ->
        __InspectionCache s' !! vesselId = Some e0
        /\ fetchCount vesselId s' = fetchCount vesselId s)
    /\ (is_Some (__InspectionCache s !! vesselId) ->
        is_Some (__InspectionCache s' !! vesselId))) as Hfinal.
  { intros v e s'. subst s'. simpl. split.
    - intros e0 He0 Hl0.
      assert (req_vessel r <> vesselId) as Hd
        by (intros Ev; rewrite Ev, He0 in Hc; injection Hc as ->; discriminate).
      rewrite lookup_insert_ne by assumption. auto.
    - intros Hs. destruct (decide (req_vessel r = vesselId)) as [->|Hd].
      + rewrite lookup_insert_eq. eauto.
      + now rewrite lookup_insert_ne. }
  destruct outcome as [data|st].
  - apply Hfinal.
  - destruct (req_guidLiteral r && (st =? 400)); [|apply Hfinal]. simpl. auto.
Qed.

Lemma keepRel_run tr : forall s, keepRel vesselId s (run tr s).
Proof.
  assert (forall ev s, keepRel vesselId s (step ev s)) as Hstep.
  { apply step_rel.
    - exact keepRel_refl.
    - exact keepRel_trans.
    - intros s t Hi. apply keepRel_frame; auto. now apply inv_setTree.
    - intros s n Hi. apply keepRel_frame; auto. now apply inv_setTally.
    - exact keepRel_load.
    - exact keepRel_http. }
  unfold run. induction tr as [|ev tr IH]; simpl; intros s; [apply keepRel_refl|].
  eapply keepRel_trans; [apply Hstep|apply IH].
Qed.

End Keep.

Section CacheLifecycle.
Context `{Host}.

(** X3. A loaded entry is permanent: whatever tasks follow, the entry of
    the vessel stays exactly as it is (same rows), and the adapter is never
    called for that vessel again. *)
Theorem loaded_entry_is_permanent
    (s : State) (vesselId : string) (e : CacheEntry) (tr : list Event) :
  reachable s ->
  __InspectionCache s !! vesselId = Some e -> loaded e = true ->
  __InspectionCache (run tr s) !! vesselId = Some e
  /\ fetchCount vesselId (run tr s) = fetchCount vesselId s.
Proof.
  intros Hr He Hl.
  destruct (keepRel_run vesselId tr s (reachable_inv s Hr)) as (_ & Hk & _). auto.
Qed.

(** X4. Entries are never removed: once a vessel has an entry (loading,
    loaded or failed), it has one after any further tasks. *)
Theorem entry_is_never_removed (s : State) (vesselId : string) (tr : list Event) :
  reachable s ->
  entryState (__InspectionCache s !! vesselId) <> Idle ->
  entryState (__InspectionCache (run tr s) !! vesselId) <> Idle.
Proof.
  intros Hr Hs.
  destruct (keepRel_run vesselId tr s (reachable_inv s Hr)) as (_ & _ & Hk).
  destruct (__InspectionCache s !! vesselId) as [e|] eqn:He; [|contradiction].
  destruct (Hk (ex_intro _ e eq_refl)) as [e' ->]. simpl.
  destruct (loaded e'); [discriminate|]. destruct (loading e'), (promise e'); discriminate.
Qed.

(** X5. A promise settles once: a fulfilled promise keeps its value through
    all later tasks. *)
Theorem fulfilled_promise_keeps_value
    (s : State) (p : nat) (v : LoadResult) (tr : list Event) :
  reachable s ->
  promises s !! p = Some (Fulfilled v) ->
  promises (run tr s) !! p = Some (Fulfilled v).
Proof. intros Hr Hp. apply fulfilled_stays; [now apply reachable_inv|exact Hp]. Qed.

(** X6. A fetch is over after at most two answers: whatever the answer to
    an outstanding GET and whatever the answer to the retry it may cause,
    the promise of the fetch is then fulfilled and the entry of the vessel
    is loaded or failed. *)
Theorem fetch_settles_within_two_answers
    (s : State) (k : nat) (r : Request) (o1 o2 : HttpOutcome) (now1 now2 : Z) :
  reachable s ->
  requests s !! k = Some r -> req_pending r = true ->
  let s2 := run [EvHttp k o1 now1; EvHttp (length (requests s)) o2 now2] s in
  (exists v, promises s2 !! req_promise r = Some (Fulfilled v))
  /\ (entryState (__InspectionCache s2 !! req_vessel r) = Loaded
      \/ entryState (__InspectionCache s2 !! req_vessel r) = Failed).
Proof.
  intros Hr Hk Hpen. pose proof (reachable_inv s Hr) as Hi.
  pose proof (inv_promise s Hi _ _ Hk Hpen) as Hp. apply lookup_lt_Some in Hp.
  assert (forall s0 k0 r0 o now,
            requests s0 !! k0 = Some r0 -> req_pending r0 = true ->
            (req_promise r0 < length (promises s0))%nat ->
            (match o with HttpFail st => req_guidLiteral r0 && (st =? 400) | _ => false end)
            = false ->
            let s' := httpSettled k0 o now s0 in
            length (requests s') = length (requests s0)
            /\ (exists v, promises s' !! req_promise r0 = Some (Fulfilled v))
            /\ (entryState (__InspectionCache s' !! req_vessel r0) = Loaded
                \/ entryState (__InspectionCache s' !! req_vessel r0) = Failed)) as Hfin.
  { intros s0 k0 r0 o now Hk0 Hp0 Hlt Ho. unfold httpSettled. rewrite Hk0, Hp0. simpl.
    destruct o as [data|st].
    - unfold onLoaded, settlePromise; simpl. rewrite length_insert, lookup_insert_eq.
      split; [reflexivity|]. split; [|now left].
      eexists. now apply list_lookup_insert_eq.
    - rewrite Ho. unfold onFailed, settlePromise; simpl.
      rewrite length_insert, lookup_insert_eq.
      split; [reflexivity|]. split; [|now right].
      eexists. now apply list_lookup_insert_eq. }
  change (run [EvHttp k o1 now1; EvHttp (length (requests s)) o2 now2] s)
    with (httpSettled (length (requests s)) o2 now2 (httpSettled k o1 now1 s)).
  destruct (match o1 with HttpFail st => req_guidLiteral r && (st =? 400) | _ => false end)
    eqn:Ho1.
  - destruct o1 as [data|st]; [discriminate|].
    assert (httpSettled k (HttpFail st) now1 s
            = setRequests (<[k := answered r]> (requests s) ++
                [{| req_vessel := req_vessel r; req_guidLiteral := false;
                    req_promise := req_promise r; req_pending := true |}]) s) as E1
      by (unfold httpSettled; rewrite Hk, Hpen; simpl; now rewrite Ho1).
    rewrite E1.
    destruct (Hfin (setRequests (<[k := answered r]> (requests s) ++
                [{| req_vessel := req_vessel r; req_guidLiteral := false;
                    req_promise := req_promise r; req_pending := true |}]) s)
                (length (requests s))
                {| req_vessel := req_vessel r; req_guidLiteral := false;
                   req_promise := req_promise r; req_pending := true |}
                o2 now2) as (_ & W1 & W2).
    + simpl. rewrite <- (length_insert (requests s) k (answered r)).
      now apply list_lookup_middle.
    + reflexivity.
    + simpl. exact Hp.
    + simpl. now destruct o2.
    + simpl in W1, W2. split; [exact W1|exact W2].
  - destruct (Hfin s k r o1 now1 Hk Hpen Hp Ho1) as (Hlen & W1 & W2).
    assert (httpSettled (length (requests s)) o2 now2 (httpSettled k o1 now1 s)
            = httpSettled k o1 now1 s) as ->.
    { unfold httpSettled at 1.
      rewrite (lookup_ge_None_2 (requests (httpSettled k o1 now1 s))); [reflexivity|].
      rewrite Hlen. lia. }
    split; [exact W1|exact W2].
Qed.

(** X8. An answer that is neither an array nor an object with an array
    [value] counts as a successful empty load: the entry becomes loaded with
    no rows and the promise is fulfilled with [{rows: []}], without the error
    flag. *)
Theorem malformed_answer_is_an_empty_load
    (s : State) (k : nat) (r : Request) (data : ODataAnswer) (now : Z) :
  reachable s ->
  requests s !! k = Some r -> req_pending r = true ->
  data = AnswerOther \/ data = AnswerObject None ->
  let s' := step (EvHttp k (HttpOk data) now) s in
  __InspectionCache s' !! req_vessel r
  = Some {| loaded := true; loading := false; rows := []; promise := None |}
  /\ promises s' !! req_promise r = Some (Fulfilled (Rows [])).
Proof.
  intros Hr Hk Hpen Hd s'.
  pose proof (inv_promise s (reachable_inv s Hr) _ _ Hk Hpen) as Hp.
  apply lookup_lt_Some in Hp.
  assert (buildOutRows now data = []) as Eb by (destruct Hd as [-> | ->]; reflexivity).
  subst s'. simpl. unfold httpSettled. rewrite Hk, Hpen. simpl.
  unfold onLoaded, settlePromise; simpl. rewrite Eb.
  split; [now rewrite lookup_insert_eq|now apply list_lookup_insert_eq].
Qed.

End CacheLifecycle.

Lemma X3_witness :
  let e := {| loaded := true; loading := false;
              rows := [{| date := "2025-03-15"; score := "98/100" |}]; promise := None |} in
  let tr := [EvToggleLiner 0; EvToggleShip 0 0; EvLoad (Some "{shipA}"); EvToggleShip 0 1] in
  @reachable utcHost shipAloaded
  /\ __InspectionCache shipAloaded !! "shipA" = Some e
  /\ loaded e = true
  /\ __InspectionCache (@run utcHost tr shipAloaded) !! "shipA" = Some e
  /\ fetchCount "shipA" (@run utcHost tr shipAloaded) = fetchCount "shipA" shipAloaded.
Proof.
  intros e tr.
  assert (@reachable utcHost shipAloaded) as Hr by (eexists _, _; reflexivity).
  assert (__InspectionCache shipAloaded !! "shipA" = Some e) as He
    by (vm_compute; reflexivity).
  split; [exact Hr|]. split; [exact He|]. split; [reflexivity|].
  exact (@loaded_entry_is_permanent utcHost shipAloaded "shipA" e tr Hr He eq_refl).
Defined.

Lemma X4_witness :
  let tr := [EvLoad (Some "shipA"); EvFilter "x"; EvToggleLiner 0] in
  @reachable utcHost shipBfailed
  /\ entryState (__InspectionCache shipBfailed !! "shipB") <> Idle
  /\ entryState (__InspectionCache (@run utcHost tr shipBfailed) !! "shipB") <> Idle.
Proof.
  intros tr.
  assert (@reachable utcHost shipBfailed) as Hr by (eexists _, _; reflexivity).
  assert (entryState (__InspectionCache shipBfailed !! "shipB") <> Idle) as Hs
    by (vm_compute; discriminate).
  split; [exact Hr|]. split; [exact Hs|].
  exact (@entry_is_never_removed utcHost shipBfailed "shipB" tr Hr Hs).
Defined.

Lemma X5_witness :
  let tr := [EvLoad (Some "shipB"); EvHttp 1 (HttpOk AnswerOther) today] in
  @reachable utcHost shipBfailed
  /\ promises shipBfailed !! 0%nat = Some (Fulfilled (RowsError []))
  /\ promises (@run utcHost tr shipBfailed) !! 0%nat = Some (Fulfilled (RowsError [])).
Proof.
  intros tr.
  assert (@reachable utcHost shipBfailed) as Hr by (eexists _, _; reflexivity).
  split; [exact Hr|]. split; [reflexivity|].
  exact (@fulfilled_promise_keeps_value utcHost shipBfailed 0%nat (RowsError []) tr Hr eq_refl).
Defined.

Lemma X6_witness :
  let r := {| req_vessel := "shipB"; req_guidLiteral := true;
              req_promise := 0%nat; req_pending := true |} in
  let s2 := @run utcHost [EvHttp 0 (HttpFail 400) today;
                          EvHttp (length (requests shipBloading)) (HttpFail 400) today]
              shipBloading in
  @reachable utcHost shipBloading
  /\ requests shipBloading !! 0%nat = Some r
  /\ req_pending r = true
  /\ (exists v, promises s2 !! 0%nat = Some (Fulfilled v))
  /\ (entryState (__InspectionCache s2 !! "shipB") = Loaded
      \/ entryState (__InspectionCache s2 !! "shipB") = Failed).
Proof.
  intros r s2.
  assert (@reachable utcHost shipBloading) as Hr by (eexists _, _; reflexivity).
  split; [exact Hr|]. split; [reflexivity|]. split; [reflexivity|].
  exact (@fetch_settles_within_two_answers utcHost shipBloading 0%nat r
           (HttpFail 400) (HttpFail 400) today today Hr eq_refl eq_refl).
Defined.

Lemma X8_witness :
  let r := {| req_vessel := "shipA"; req_guidLiteral := true;
              req_promise := 0%nat; req_pending := true |} in
  let s' := @step utcHost (EvHttp 0 (HttpOk AnswerOther) today) shipAloading in
  @reachable utcHost shipAloading
  /\ requests shipAloading !! 0%nat = Some r
  /\ req_pending r = true
  /\ (AnswerOther = AnswerOther \/ AnswerOther = AnswerObject None)
  /\ __InspectionCache s' !! "shipA"
     = Some {| loaded := true; loading := false; rows := []; promise := None |}
  /\ promises s' !! 0%nat = Some (Fulfilled (Rows [])).
Proof.
  intros r s'.
  assert (@reachable utcHost shipAloading) as Hr by (eexists _, _; reflexivity).
  split; [exact Hr|]. split; [reflexivity|]. split; [reflexivity|].
  split; [left; reflexivity|].
  exact (@malformed_answer_is_an_empty_load utcHost shipAloading 0%nat r AnswerOther today
           Hr eq_refl eq_refl (or_introl eq_refl)).
Defined.

(** ** The number of GETs *)

Lemma filter_insert_length {A} (P : A -> bool) (l : list A) : forall k x y,
  l !! k = Some x ->
  (length (List.filter P (<[k := y]> l)) + Nat.b2n (P x)
   = length (List.filter P l) + Nat.b2n (P y))%nat.
Proof.
  induction l as [|a l IH]; intros [|k] x y Hk; try discriminate.
  - injection Hk as ->. change (<[0%nat := y]> (x :: l)) with (y :: l).
    simpl. destruct (P x), (P y); simpl; lia.
  - change (<[S k := y]> (a :: l)) with (a :: <[k := y]> l).
    simpl. specialize (IH k x y Hk). destruct (P a); simpl; lia.
Qed.

Lemma filter_snoc_length {A} (P : A -> bool) (l : list A) x :
  length (List.filter P (l ++ [x])) = (length (List.filter P l) + Nat.b2n (P x))%nat.
Proof. rewrite List.filter_app, length_app. simpl. destruct (P x); reflexivity. Qed.

Lemma filter_split_length {A} (P : A -> bool) (l : list A) :
  length l = (length (List.filter P l) + length (List.filter (fun x => negb (P x)) l))%nat.
Proof. induction l as [|a l IH]; simpl; [reflexivity|]. destruct (P a); simpl; lia. Qed.

Lemma filter_and_length {A} (P Q : A -> bool) (l : list A) :
  (length (List.filter (fun x => P x && Q x) l) <= length (List.filter P l))%nat.
Proof. induction l as [|a l IH]; simpl; [lia|]. destruct (P a), (Q a); simpl; lia. Qed.

Section Gets.
Context `{Host}.

Lemma getsInv_frame s s' :
  requests s' = requests s -> fetchLog s' = fetchLog s -> getsInv s -> getsInv s'.
Proof.
  unfold getsInv, firstTries, retries, answeredFirstTries. intros -> ->. auto.
Qed.

Lemma getsInv_load s raw : getsInv s -> getsInv (snd (loadInspectionHistoryForVessel raw s)).
Proof.
  unfold loadInspectionHistoryForVessel.
  assert (forall v, getsInv s -> getsInv (snd (startFetch v s))) as Hstart.
  { intros v. unfold getsInv, firstTries, retries, answeredFirstTries. simpl.
    rewrite !filter_snoc_length, length_app. simpl. lia. }
  destruct (negb (Js.truthy (normalizeGuid raw))); [now apply getsInv_frame|].
  destruct (__InspectionCache s !! normalizeGuid raw) as [e|]; [|apply Hstart].
  destruct (loaded e); [now apply getsInv_frame|].
  destruct (loading e), (promise e); auto.
Qed.

Lemma getsInv_http s k outcome now : getsInv s -> getsInv (httpSettled k outcome now s).
Proof.
  unfold httpSettled.
  destruct (requests s !! k) as [r|] eqn:Hk; [|auto].
  destruct (req_pending r) eqn:Hpen; simpl; [|auto].
  pose proof (filter_insert_length req_guidLiteral _ _ _ (answered r) Hk) as E1.
  pose proof (filter_insert_length (fun r => negb (req_guidLiteral r)) _ _ _ (answered r) Hk)
    as E2.
  pose proof (filter_insert_length (fun r => req_guidLiteral r && negb (req_pending r))
                _ _ _ (answered r) Hk) as E3.
  simpl in E1, E2, E3. rewrite Hpen in E3.
  assert (forall s', requests s' = <[k := answered r]> (requests s) ->
            fetchLog s' = fetchLog s -> getsInv s -> getsInv s') as Hfinal.
  { intros s' Er El. unfold getsInv, firstTries, retries, answeredFirstTries.
    rewrite Er, El. destruct (req_guidLiteral r); simpl in *; lia. }
  destruct outcome as [data|st].
  - now apply Hfinal.
  - destruct (req_guidLiteral r) eqn:Hlit; simpl; [|now apply Hfinal].
    destruct (st =? 400); [|now apply Hfinal].
    simpl in E1, E2, E3.
    unfold getsInv, firstTries, retries, answeredFirstTries. simpl.
    rewrite !filter_snoc_length. simpl. lia.
Qed.

Lemma getsInv_reachable s : reachable s -> getsInv s.
Proof.
  intros (t & tr & ->).
  assert (forall ev s, getsInv s -> getsInv (step ev s)) as Hstep.
  { apply (step_rel (fun s s' => getsInv s -> getsInv s')); auto.
    - intros s0 raw. apply getsInv_load.
    - intros s0 k o now. apply getsInv_http. }
  assert (forall tr s, getsInv s -> getsInv (run tr s)) as Hrun.
  { unfold run. induction tr0 as [|ev tr0 IH]; simpl; auto. }
  apply Hrun. unfold getsInv, firstTries, retries, answeredFirstTries. simpl. lia.
Qed.

(** X7. No retry loop: in every reachable state the number of GETs issued
    is at most twice the number of adapter calls; each call of
    [fetchIncidentsWithFallback] issues one first try and at most one
    retry. *)
Theorem at_most_two_gets_per_fetch (s : State) :
  reachable s ->
  firstTries s = length (fetchLog s)
  /\ (retries s <= firstTries s)%nat
  /\ (length (requests s) <= 2 * length (fetchLog s))%nat.
Proof.
  intros Hr. destruct (getsInv_reachable s Hr) as [E1 E2].
  pose proof (filter_split_length req_guidLiteral (requests s)) as E3.
  pose proof (filter_and_length req_guidLiteral (fun r => negb (req_pending r)) (requests s))
    as E4.
  unfold firstTries, retries, answeredFirstTries in *. lia.
Qed.

End Gets.

Lemma X7_witness :
  let s := @run utcHost [EvHttp 0 (HttpFail 400) today; EvHttp 1 (HttpFail 400) today;
                         EvLoad (Some "shipB")] shipBloading in
  @reachable utcHost s
  /\ length (requests s) = 3%nat
  /\ length (fetchLog s) = 2%nat
  /\ (length (requests s) <= 2 * length (fetchLog s))%nat.
Proof.
  intros s.
  assert (@reachable utcHost s) as Hr
    by (exists catalogX, [EvLoad (Some "shipB"); EvHttp 0 (HttpFail 400) today;
                          EvHttp 1 (HttpFail 400) today; EvLoad (Some "shipB")];
        reflexivity).
  split; [exact Hr|]. split; [reflexivity|]. split; [reflexivity|].
  apply (@at_most_two_gets_per_fetch utcHost s Hr).
Defined.

(** * Further properties of the search filter *)

Lemma length_filter_map {A B} (P : B -> bool) (f : A -> B) (l : list A) :
  length (List.filter P (map f l)) = length (List.filter (fun x => P (f x)) l).
Proof. induction l as [|x l IH]; simpl; [reflexivity|]. destruct (P (f x)); simpl; now rewrite IH. Qed.

Lemma length_filter_ext {A} (P Q : A -> bool) (l : list A) :
  (forall x, P x = Q x) -> length (List.filter P l) = length (List.filter Q l).
Proof. intros E. now rewrite (List.filter_ext P Q E). Qed.

Lemma filterLiners_spec q l : forall a b,
  filterLiners q l a b
  = (map (filteredLiner q) l,
     (a + length (List.filter (linerShown q) l))%nat,
     (b + list_sum (map (fun liner => if linerShown q liner then shipsShown q liner else 0%nat)
                        l))%nat).
Proof.
  induction l as [|liner l IH]; intros a b; simpl.
  - rewrite !pair_equal_spec. repeat split; lia.
  - rewrite filterLiner_spec, IH.
    destruct (linerShown q liner); simpl; rewrite !pair_equal_spec;
      repeat split; lia.
Qed.

Lemma filteredLiner_visible q liner :
  liner_visible (filteredLiner q liner) = linerShown q liner.
Proof.
  rewrite filteredLiner_cases.
  destruct (linerShown q liner); simpl; [|reflexivity]. now destruct (Js.truthy q).
Qed.

Lemma showShip_visible q lm ship : ship_visible (showShip q lm ship) = shipShown q lm ship.
Proof. unfold showShip, shipShown. now destruct (negb (Js.truthy q) || lm || shipMatch q ship). Qed.

Lemma filteredLiner_visibleShips q liner :
  visibleShipsOf (filteredLiner q liner)
  = if linerShown q liner then shipsShown q liner else 0%nat.
Proof.
  unfold visibleShipsOf. rewrite filteredLiner_visible.
  destruct (linerShown q liner) eqn:E; [|reflexivity].
  rewrite filteredLiner_cases, E. unfold shipsShown. simpl.
  destruct (Js.truthy q); simpl; rewrite ?map_map, length_filter_map;
    apply length_filter_ext; intros x; simpl; apply showShip_visible.
Qed.

(** X9. The counters [applyFilter] hands to the status line are the
    numbers one reads off the filtered tree: the liners left visible, and
    the visible ships below visible liners (the ships of a hidden liner are
    not counted, although their [display] is reset). *)
Theorem filter_counters_match_tree (raw : string) (t : list Liner) :
  let '(t', matchedLiners, matchedShips) := applyFilter raw t in
  matchedLiners = visibleLiners t' /\ matchedShips = visibleShips t'.
Proof.
  unfold applyFilter. rewrite filterLiners_spec. unfold visibleLiners, visibleShips. split.
  - rewrite length_filter_map. simpl. apply length_filter_ext.
    intros x. now rewrite filteredLiner_visible.
  - rewrite map_map. simpl. f_equal. apply map_ext.
    intros x. now rewrite filteredLiner_visibleShips.
Qed.

Lemma forallb_fmap {A B} (P : B -> bool) (f : A -> B) (l : list A) :
  (forall x, P (f x) = true) -> forallb P (map f l) = true.
Proof. intros Hf. induction l as [|x l IH]; simpl; [reflexivity|]. now rewrite Hf, IH. Qed.

Lemma tidy_filteredLiner q liner : tidyLiner (filteredLiner q liner) = true.
Proof.
  rewrite filteredLiner_cases. unfold tidyLiner.
  destruct (negb (linerShown q liner)); [|destruct (Js.truthy q)]; simpl.
  - rewrite !forallb_fmap; auto.
  - apply forallb_fmap. intros x.
    unfold tidyShip, showShip. destruct (negb _) eqn:E; simpl; [reflexivity|].
    apply negb_false_iff in E. rewrite E. now destruct (ship_open x).
  - rewrite map_map. rewrite !forallb_fmap; auto.
Qed.

(** X10. After every filter pass nothing hidden is open: an open liner is
    visible, an open ship is visible, and a closed liner has only closed
    ships. *)
Theorem filter_leaves_tree_tidy (raw : string) (t : list Liner) :
  tidy (fst (fst (applyFilter raw t))) = true.
Proof.
  rewrite applyFilter_tree. unfold tidy. apply forallb_fmap.
  intros x. apply tidy_filteredLiner.
Qed.

(** ** Substrings *)

Lemma append_cons x (a b : string) : (String x a ++ b)%string = String x (a ++ b)%string.
Proof. reflexivity. Qed.

Lemma append_nil (b : string) : ("" ++ b)%string = b.
Proof. reflexivity. Qed.

Lemma append_assoc (a b c : string) : ((a ++ b) ++ c = a ++ (b ++ c))%string.
Proof.
  induction a as [|x a IH]; [reflexivity|]. rewrite !append_cons. f_equal. exact IH.
Qed.

Lemma startsWith_prefix s : forall q,
  Js.startsWith s q = true <-> exists b, s = (q ++ b)%string.
Proof.
  induction s as [|c s IH]; intros [|d q]; simpl.
  - split; [exists ""; reflexivity|reflexivity].
  - split; [discriminate|intros [b Hb]; rewrite append_cons in Hb; discriminate].
  - split; [exists (String c s); reflexivity|reflexivity].
  - destruct (Ascii.eqb c d) eqn:E.
    + apply Ascii.eqb_eq in E. subst d. rewrite IH.
      split; intros [b Hb]; exists b; rewrite append_cons in *; congruence.
    + split; [discriminate|]. intros [b Hb]. rewrite append_cons in Hb.
      injection Hb as -> _. now rewrite Ascii.eqb_refl in E.
Qed.

Lemma occursIn_empty q : occursIn q "" <-> q = "".
Proof.
  split.
  - intros (a & b & E). destruct a; [|rewrite append_cons in E; discriminate].
    rewrite append_nil in E. destruct q; [reflexivity|].
    rewrite append_cons in E; discriminate.
  - intros ->. exists "", "". reflexivity.
Qed.

Lemma indexOfFrom_occurs s q : forall i,
  0 <= i -> (Js.indexOfFrom i s q <> -1 <-> occursIn q s).
Proof.
  induction s as [|c s IH]; intros i Hi.
  - cbn [Js.indexOfFrom]. rewrite occursIn_empty.
    destruct q; simpl; split; try congruence; lia.
  - cbn [Js.indexOfFrom]. destruct (Js.startsWith (String c s) q) eqn:E.
    + split; [intros _|lia]. apply startsWith_prefix in E as [b Hb]. exists "", b. exact Hb.
    + rewrite IH by lia. split.
      * intros (a & b & ->). exists (String c a), b. reflexivity.
      * intros (a & b & Hab). destruct a as [|x a].
        -- assert (Js.startsWith (String c s) q = true) as E'
             by (apply startsWith_prefix; exists b; exact Hab). congruence.
        -- rewrite append_cons in Hab. injection Hab as _ ->. exists a, b. reflexivity.
Qed.

Lemma occursIn_trans q q' name : occursIn q q' -> occursIn q' name -> occursIn q name.
Proof.
  intros (a & b & ->) (a' & b' & ->). exists (a' ++ a)%string, (b ++ b')%string.
  now rewrite !append_assoc.
Qed.

Lemma nameMatches_occurs q name :
  nameMatches q name = true <-> q = "" \/ occursIn q name.
Proof.
  unfold nameMatches, Js.indexOf. rewrite orb_true_iff, negb_true_iff, negb_true_iff.
  rewrite truthy_false, Z.eqb_neq, indexOfFrom_occurs by lia. reflexivity.
Qed.

Lemma nameMatches_refine q q' name :
  occursIn q q' -> nameMatches q' name = true -> nameMatches q name = true.
Proof.
  rewrite !nameMatches_occurs. intros Hq [->|Ho].
  - left. now apply occursIn_empty.
  - right. eapply occursIn_trans; eauto.
Qed.

(** ** Refining a query *)

Lemma shipsShownIn_map (f g : Ship -> Ship) l :
  (forall x, ship_visible (f x) = true -> ship_visible (g x) = true) ->
  shipsShownIn (map f l) (map g l) = true.
Proof.
  intros Hfg. induction l as [|x l IH]; simpl; [reflexivity|].
  rewrite IH, andb_true_r. unfold shipShownIn.
  destruct (ship_visible (f x)) eqn:E; [|reflexivity]. now rewrite Hfg.
Qed.

Lemma filteredLiner_ships_visible q liner :
  linerShown q liner = true ->
  exists f, liner_ships (filteredLiner q liner) = map f (liner_ships liner)
    /\ forall x, ship_visible (f x) = shipShown q (linerMatches q liner) x.
Proof.
  intros E. rewrite filteredLiner_cases, E. simpl. destruct (Js.truthy q); simpl.
  - eexists. split; [reflexivity|]. intros x. apply showShip_visible.
  - rewrite map_map. eexists. split; [reflexivity|]. intros x. simpl. apply showShip_visible.
Qed.

Lemma linerShown_refine q q' liner :
  occursIn q q' -> linerShown q' liner = true -> linerShown q liner = true.
Proof.
  intros Hq. unfold linerShown, linerMatches.
  rewrite !orb_true_iff, !negb_true_iff, !existsb_exists.
  intros [[Ht|Hm]|(x & Hx & Hm)].
  - left. left. apply truthy_false. apply truthy_false in Ht. subst q'.
    now apply occursIn_empty.
  - left. right. eapply nameMatches_refine; eauto.
  - right. exists x. split; [exact Hx|]. unfold shipMatch in *.
    eapply nameMatches_refine; eauto.
Qed.

Lemma shipShown_refine q q' liner x :
  occursIn q q' ->
  shipShown q' (linerMatches q' liner) x = true -> shipShown q (linerMatches q liner) x = true.
Proof.
  intros Hq. unfold shipShown, linerMatches, shipMatch.
  rewrite !orb_true_iff, !negb_true_iff.
  intros [[Ht|Hm]|Hm].
  - left. left. apply truthy_false. apply truthy_false in Ht. subst q'.
    now apply occursIn_empty.
  - left. right. eapply nameMatches_refine; eauto.
  - right. eapply nameMatches_refine; eauto.
Qed.

Lemma length_filter_le {A} (P Q : A -> bool) (l : list A) :
  (forall x, P x = true -> Q x = true) ->
  (length (List.filter P l) <= length (List.filter Q l))%nat.
Proof.
  intros E. induction l as [|x l IH]; simpl; [lia|].
  destruct (P x) eqn:Ex; [rewrite (E x Ex); simpl; lia|].
  destruct (Q x); simpl; lia.
Qed.

Lemma list_sum_map_le {A} (f g : A -> nat) (l : list A) :
  (forall x, (f x <= g x)%nat) -> (list_sum (map f l) <= list_sum (map g l))%nat.
Proof.
  intros E. induction l as [|x l IH]; simpl; [lia|]. specialize (E x). lia.
Qed.

(** X11. Refining a query never reveals anything: when the query of one
    pass occurs inside the query of another (both trimmed and lower-cased),
    every liner the longer query shows is shown by the shorter one, and so
    is every ship below such a liner; both counters of the longer query are
    at most those of the shorter one. *)
Theorem refining_query_shows_no_more (raw raw' : string) (t : list Liner) :
  occursIn (normalizedQuery raw) (normalizedQuery raw') ->
  shownIn (fst (fst (applyFilter raw' t))) (fst (fst (applyFilter raw t))) = true
  /\ (snd (fst (applyFilter raw' t)) <= snd (fst (applyFilter raw t)))%nat
  /\ (snd (applyFilter raw' t) <= snd (applyFilter raw t))%nat.
Proof.
  unfold normalizedQuery, applyFilter. intros Hq. rewrite !filterLiners_spec. simpl.
  set (q := Js.toLowerCase (Js.trim raw)) in *.
  set (q' := Js.toLowerCase (Js.trim raw')) in *.
  split; [|split].
  - induction t as [|liner t IH]; simpl; [reflexivity|].
    rewrite IH, andb_true_r. rewrite !filteredLiner_visible.
    destruct (linerShown q' liner) eqn:E'; [|reflexivity]. simpl.
    pose proof (linerShown_refine q q' liner Hq E') as E. rewrite E. simpl.
    destruct (filteredLiner_ships_visible q liner E) as (f & -> & Hf).
    destruct (filteredLiner_ships_visible q' liner E') as (f' & -> & Hf').
    apply shipsShownIn_map. intros x. rewrite Hf, Hf'. now apply shipShown_refine.
  - apply length_filter_le. intros x. now apply linerShown_refine.
  - apply list_sum_map_le. intros x.
    destruct (linerShown q' x) eqn:E'; [|lia].
    rewrite (linerShown_refine q q' x Hq E'). unfold shipsShown.
    apply length_filter_le. intros y. now apply shipShown_refine.
Qed.

Lemma X11_witness :
  occursIn (normalizedQuery " SHIP ") (normalizedQuery "Ship1")
  /\ shownIn (fst (fst (applyFilter "Ship1" catalogX))) (fst (fst (applyFilter " SHIP " catalogX)))
     = true
  /\ (snd (applyFilter "Ship1" catalogX) <= snd (applyFilter " SHIP " catalogX))%nat.
Proof.
  assert (occursIn (normalizedQuery " SHIP ") (normalizedQuery "Ship1")) as Hq
    by (exists "", "1"; reflexivity).
  split; [exact Hq|].
  destruct (refining_query_shows_no_more " SHIP " "Ship1" catalogX Hq) as (W1 & _ & W3).
  split; [exact W1|exact W3].
Defined.

(** ** What the filter and the toggles leave alone *)

Lemma noShipOpened_map (f : Ship -> Ship) l :
  (forall x, ship_open (f x) = true -> ship_open x = true) ->
  noShipOpened l (map f l) = true.
Proof.
  intros Hf. induction l as [|x l IH]; simpl; [reflexivity|].
  rewrite IH, andb_true_r. destruct (ship_open (f x)) eqn:E; [|reflexivity].
  now rewrite (Hf x E).
Qed.

Lemma noShipOpenedIn_filtered q t : noShipOpenedIn t (map (filteredLiner q) t) = true.
Proof.
  induction t as [|liner t IH]; simpl; [reflexivity|]. rewrite IH, andb_true_r.
  destruct (filteredLiner_ships q liner) as (f & -> & _ & Hf). now apply noShipOpened_map.
Qed.

Section Frames.
Context `{Host}.

(** X12. A filter pass changes flags only: the liners and ships, their
    names, vessel ids and order stay as they are, no ship is opened, and
    the cache, the promises, the outstanding GETs and the fetch log are
    untouched, so a fetch in flight is neither cancelled nor repeated. *)
Theorem filter_changes_flags_only (raw : string) (s : State) :
  let s' := step (EvFilter raw) s in
  shape (tree s') = shape (tree s)
  /\ noShipOpenedIn (tree s) (tree s') = true
  /\ __InspectionCache s' = __InspectionCache s
  /\ promises s' = promises s
  /\ requests s' = requests s
  /\ fetchLog s' = fetchLog s.
Proof.
  intros s'. subst s'. rewrite step_filter. simpl. rewrite applyFilter_tree.
  repeat split; [apply shape_filtered|apply noShipOpenedIn_filtered].
Qed.

Lemma load_setTree raw t s :
  loadInspectionHistoryForVessel raw (setTree t s)
  = (fst (loadInspectionHistoryForVessel raw s),
     setTree t (snd (loadInspectionHistoryForVessel raw s))).
Proof.
  unfold loadInspectionHistoryForVessel. simpl.
  destruct (negb (Js.truthy (normalizeGuid raw))); [reflexivity|].
  destruct (__InspectionCache s !! normalizeGuid raw) as [e|]; [|reflexivity].
  destruct (loaded e); [reflexivity|]. now destruct (loading e), (promise e).
Qed.

Lemma fireShipToggles_flip l : forall j st,
  fireShipToggles l (alter flipShip j l) st
  = match l !! j with
    | Some ship => shipToggleListener (flipShip ship) st
    | None => st
    end.
Proof.
  induction l as [|x l IH]; intros [|j] st; try reflexivity.
  - change (alter flipShip 0%nat (x :: l)) with (flipShip x :: l).
    cbn [fireShipToggles]. rewrite fireShipToggles_same.
    now destruct x as [? ? [] ?].
  - change (alter flipShip (S j) (x :: l)) with (x :: alter flipShip j l).
    cbn [fireShipToggles]. rewrite Bool.eqb_reflx. apply IH.
Qed.

Lemma fireShipTogglesIn_alter (g : Liner -> Liner) t : forall i st,
  fireShipTogglesIn t (alter g i t) st
  = match t !! i with
    | Some liner => fireShipToggles (liner_ships liner) (liner_ships (g liner)) st
    | None => st
    end.
Proof.
  induction t as [|x t IH]; intros [|i] st; try reflexivity.
  - change (alter g 0%nat (x :: t)) with (g x :: t).
    cbn [fireShipTogglesIn]. apply fireShipTogglesIn_calm.
    apply Forall_Forall2_diag, Forall_forall. intros y _ s0. apply fireShipToggles_same.
  - change (alter g (S i) (x :: t)) with (x :: alter g i t).
    cbn [fireShipTogglesIn]. rewrite fireShipToggles_same. apply IH.
Qed.

Lemma fireLinerToggles_ships (g : Liner -> Liner) t i :
  (forall liner, liner_open (g liner) = liner_open liner) ->
  fireLinerToggles t (alter g i t) = alter g i t.
Proof.
  intros Hg. apply fireLinerToggles_settled. apply Forall2_alter_r.
  - apply Forall_Forall2_diag, Forall_forall. intros x _ E.
    now rewrite Bool.eqb_reflx in E.
  - intros x y Hx Hy _ E. rewrite Hx in Hy. injection Hy as <-.
    now rewrite Hg, Bool.eqb_reflx in E.
Qed.

(** X13. Toggling a ship: the ship's [open] flag flips and nothing else in
    the tree changes. Closing it touches nothing else; opening it calls
    [loadInspectionHistoryForVessel] exactly once, with the ship's
    [data-vessel-id], or [""] when it has none. *)
Theorem toggling_a_ship (i j : nat) (liner : Liner) (ship : Ship) (s : State) :
  tree s !! i = Some liner ->
  liner_ships liner !! j = Some ship ->
  let t' := <[i := setLinerShips (<[j := flipShip ship]> (liner_ships liner)) liner]> (tree s) in
  step (EvToggleShip i j) s
  = if ship_open ship then setTree t' s
    else setTree t'
           (snd (loadInspectionHistoryForVessel (Some (default "" (ship_vessel_id ship))) s)).
Proof.
  intros Hi Hj t'.
  assert (alter (fun liner => setLinerShips (alter flipShip j (liner_ships liner)) liner)
                i (tree s) = t') as Et.
  { subst t'. apply list_eq. intros n. destruct (decide (i = n)) as [<-|Hn].
    - rewrite list_lookup_alter_eq, Hi, list_lookup_insert_eq by (now apply lookup_lt_Some in Hi).
      simpl. do 2 f_equal. apply list_eq. intros m. destruct (decide (j = m)) as [<-|Hm].
      + rewrite list_lookup_alter_eq, Hj, list_lookup_insert_eq
          by (now apply lookup_lt_Some in Hj). reflexivity.
      + now rewrite list_lookup_alter_ne, list_lookup_insert_ne.
    - now rewrite list_lookup_alter_ne, list_lookup_insert_ne. }
  cbn [step]. unfold settleToggles. cbn [tree setTree].
  rewrite fireLinerToggles_ships by reflexivity.
  rewrite fireShipTogglesIn_alter, Hi. cbn [liner_ships setLinerShips].
  rewrite fireShipToggles_flip, Hj. rewrite Et.
  unfold shipToggleListener, flipShip. cbn [ship_open setShipOpen ship_vessel_id].
  destruct (ship_open ship); cbn [negb].
  - reflexivity.
  - change (setTree t' (setTree t' s)) with (setTree t' s).
    now rewrite (load_setTree (Some (default "" (ship_vessel_id ship))) t' s).
Qed.

Lemma setTree_same s : setTree (tree s) s = s.
Proof. now destruct s. Qed.

(** X14. Opening a liner (a toggle of one that is closed) sets its [open]
    flag and nothing else: the ships below it keep their flags, so none is
    reopened and no inspection history is loaded, and the cache, the
    promises and the requests are as before. Closing it again gives back the
    state it was opened from when its ships were closed. *)
Theorem opening_a_liner (i : nat) (liner : Liner) (s : State) :
  tree s !! i = Some liner ->
  liner_open liner = false ->
  step (EvToggleLiner i) s = setTree (<[i := setLinerOpen true liner]> (tree s)) s
  /\ (Forall (fun ship => ship_open ship = false) (liner_ships liner) ->
      run [EvToggleLiner i; EvToggleLiner i] s = s).
Proof.
  intros Hi Hc. pose proof (lookup_lt_Some _ _ _ Hi) as Hlt.
  assert (step (EvToggleLiner i) s = setTree (<[i := setLinerOpen true liner]> (tree s)) s)
    as E1.
  { rewrite step_toggleLiner. f_equal. apply list_eq. intros n.
    destruct (decide (i = n)) as [<-|Hn].
    - rewrite list_lookup_alter_eq, Hi, list_lookup_insert_eq by exact Hlt.
      simpl. f_equal. unfold linerToggleListener, flipLiner. simpl. now rewrite Hc.
    - now rewrite list_lookup_alter_ne, list_lookup_insert_ne. }
  split; [exact E1|]. intros Hships.
  change (run [EvToggleLiner i; EvToggleLiner i] s)
    with (step (EvToggleLiner i) (step (EvToggleLiner i) s)).
  rewrite E1, step_toggleLiner. cbn [tree setTree].
  assert (alter (fun liner0 => linerToggleListener (flipLiner liner0)) i
                (<[i := setLinerOpen true liner]> (tree s)) = tree s) as ->.
  { apply list_eq. intros n. destruct (decide (i = n)) as [<-|Hn].
    - rewrite list_lookup_alter_eq, list_lookup_insert_eq, Hi by exact Hlt.
      simpl. f_equal. unfold linerToggleListener, flipLiner. simpl.
      rewrite (map_setShipOpen_closed _ Hships). destruct liner; simpl in *. now subst.
    - now rewrite list_lookup_alter_ne, list_lookup_insert_ne. }
  exact (setTree_same s).
Qed.

End Frames.

Lemma X13_witness :
  catalogX !! 0%nat = Some linerX
  /\ (exists ship, liner_ships linerX !! 0%nat = Some ship /\ ship_open ship = false)
  /\ fetchLog (@step utcHost (EvToggleShip 0 0) (initState catalogX)) = ["shipA"]
  /\ fetchLog (@run utcHost [EvToggleShip 0 0; EvToggleShip 0 0; EvToggleShip 0 0]
                 (initState catalogX)) = ["shipA"].
Proof.
  split; [reflexivity|]. split; [eexists; split; reflexivity|].
  split; [|vm_compute; reflexivity].
  rewrite (@toggling_a_ship utcHost 0%nat 0%nat linerX _ (initState catalogX)
             eq_refl eq_refl).
  reflexivity.
Defined.

Lemma X14_witness :
  tree (initState catalogX) !! 0%nat = Some linerX
  /\ liner_open linerX = false
  /\ Forall (fun ship => ship_open ship = false) (liner_ships linerX)
  /\ fetchLog (@step utcHost (EvToggleLiner 0) (initState catalogX)) = []
  /\ @run utcHost [EvToggleLiner 0; EvToggleLiner 0] (initState catalogX) = initState catalogX.
Proof.
  assert (Forall (fun ship => ship_open ship = false) (liner_ships linerX)) as Hs
    by (repeat constructor).
  split; [reflexivity|]. split; [reflexivity|]. split; [exact Hs|].
  destruct (@opening_a_liner utcHost 0%nat linerX (initState catalogX) eq_refl eq_refl)
    as [W1 W2].
  split; [rewrite W1; reflexivity|exact (W2 Hs)].
Defined.

(** * Further properties of the helpers *)

(** ** [trim] and [normalizeGuid] *)

Lemma trimEnd_idem s : Js.trimEnd (Js.trimEnd s) = Js.trimEnd s.
Proof.
  induction s as [|c r IH]; [reflexivity|]. cbn [Js.trimEnd].
  destruct (Js.trimEnd r) as [|d r'] eqn:E.
  - destruct (Js.isWhiteSpace c) eqn:Ec; [reflexivity|]. cbn [Js.trimEnd]. now rewrite Ec.
  - cbn [Js.trimEnd]. cbn [Js.trimEnd] in IH. now rewrite IH.
Qed.

Lemma trimStart_head s :
  Js.trimStart s = "" \/ exists c r, Js.trimStart s = String c r /\ Js.isWhiteSpace c = false.
Proof.
  induction s as [|c r IH]; [now left|]. cbn [Js.trimStart].
  destruct (Js.isWhiteSpace c) eqn:E; [exact IH|]. right. eauto.
Qed.

Lemma trimStart_trimEnd c r :
  Js.isWhiteSpace c = false ->
  Js.trimStart (Js.trimEnd (String c r)) = Js.trimEnd (String c r).
Proof.
  intros E. cbn [Js.trimEnd]. destruct (Js.trimEnd r); rewrite ?E; cbn [Js.trimStart];
    now rewrite E.
Qed.

Lemma trim_idem s : Js.trim (Js.trim s) = Js.trim s.
Proof.
  unfold Js.trim. destruct (trimStart_head s) as [->|(c & r & -> & E)]; [reflexivity|].
  now rewrite trimStart_trimEnd, trimEnd_idem.
Qed.

Lemma noBraces_stripBraces s : noBraces (stripBraces s) = true.
Proof.
  induction s as [|c r IH]; [reflexivity|]. cbn [stripBraces].
  destruct (isBrace c) eqn:E; [exact IH|]. unfold noBraces in *. simpl. now rewrite E, IH.
Qed.

Lemma stripBraces_noBraces s : noBraces s = true -> stripBraces s = s.
Proof.
  unfold noBraces. induction s as [|c r IH]; [reflexivity|]. simpl.
  intros [Hc Hr]%andb_true_iff. apply negb_true_iff in Hc. now rewrite Hc, IH.
Qed.

Lemma noBraces_trimStart s : noBraces s = true -> noBraces (Js.trimStart s) = true.
Proof.
  unfold noBraces. induction s as [|c r IH]; [reflexivity|]. cbn [Js.trimStart].
  intros Hs. destruct (Js.isWhiteSpace c); [|exact Hs].
  simpl in Hs. apply andb_true_iff in Hs as [_ Hr]. auto.
Qed.

Lemma noBraces_trimEnd s : noBraces s = true -> noBraces (Js.trimEnd s) = true.
Proof.
  unfold noBraces. induction s as [|c r IH]; [reflexivity|]. simpl.
  intros [Hc Hr]%andb_true_iff. specialize (IH Hr).
  destruct (Js.trimEnd r) eqn:E.
  - destruct (Js.isWhiteSpace c); [reflexivity|]. simpl. now rewrite Hc.
  - cbn [allChars] in *. now rewrite Hc, IH.
Qed.

Lemma normalizeGuid_clean s : noBraces s = true -> normalizeGuid (Some s) = Js.trim s.
Proof.
  intros Hs. unfold normalizeGuid. simpl. apply stripBraces_noBraces.
  unfold Js.trim. now apply noBraces_trimEnd, noBraces_trimStart.
Qed.

(** X15. [normalizeGuid] never returns a brace. Normalising its result
    again only trims it, and what that gives is a fixed point: the
    [data-vessel-id] that [buildShipNode] writes for an id the catalog load
    has normalised is exactly the cache key the ship's toggle listener uses. *)
Theorem normalizeGuid_settles (g : option string) :
  let v := normalizeGuid g in
  let w := normalizeGuid (Some v) in
  noBraces v = true
  /\ w = Js.trim v
  /\ normalizeGuid (Some w) = w
  /\ (v <> "" -> shipNodeVesselId v = Some w).
Proof.
  intros v w.
  assert (noBraces v = true) as Hv by apply noBraces_stripBraces.
  assert (w = Js.trim v) as Hw by (now apply normalizeGuid_clean).
  split; [exact Hv|]. split; [exact Hw|]. split.
  - rewrite normalizeGuid_clean; rewrite Hw; [apply trim_idem|].
    unfold Js.trim. now apply noBraces_trimEnd, noBraces_trimStart.
  - intros Hne. unfold shipNodeVesselId. apply truthy_true in Hne. now rewrite Hne.
Qed.

Example normalizeGuid_not_idempotent :
  normalizeGuid (Some "{ a }") = " a " /\ normalizeGuid (Some " a ") = "a".
Proof. split; reflexivity. Qed.

Lemma X15_witness :
  normalizeGuid (Some " {6045BDF9} ") <> ""
  /\ shipNodeVesselId (normalizeGuid (Some " {6045BDF9} ")) = Some "6045BDF9".
Proof.
  assert (normalizeGuid (Some " {6045BDF9} ") <> "") as Hne by discriminate.
  split; [exact Hne|].
  destruct (normalizeGuid_settles (Some " {6045BDF9} ")) as (_ & _ & _ & W).
  rewrite (W Hne). reflexivity.
Defined.

(** ** The order of cached rows *)

Lemma insertRow_head x l :
  HdRel (fun a b => Js.ltb (date a) (date b) = false) x l -> insertRow x l = x :: l.
Proof.
  intros [|y l' Hxy]; [reflexivity|]. simpl. now rewrite compareRows_pos, Hxy.
Qed.

Lemma sortRows_sorted l : newestFirst l -> sortRows l = l.
Proof.
  unfold newestFirst. induction 1 as [|x l Hs IH Hhd]; [reflexivity|].
  simpl. rewrite IH. now apply insertRow_head.
Qed.

Section RowOrder.
Context `{Host}.

(** X16. When the rows the adapter returns are already newest first (as
    the [$orderby] of the request asks), the client-side sort changes
    nothing: the cached rows are the kept rows in the order of the answer. *)
Theorem sorted_answer_keeps_its_order (now : Z) (data : ODataAnswer) :
  newestFirst (omap (keptRow now) (odataToArray data)) ->
  buildOutRows now data = omap (keptRow now) (odataToArray data).
Proof.
  intros Hs. unfold buildOutRows. rewrite fold_pushRow. simpl. now apply sortRows_sorted.
Qed.

End RowOrder.

Lemma X16_witness :
  newestFirst (omap (@keptRow utcHost today) (odataToArray orderedInspections))
  /\ length (omap (@keptRow utcHost today) (odataToArray orderedInspections)) = 3%nat
  /\ @buildOutRows utcHost today orderedInspections
     = [ {| date := "2025-03-15"; score := "98/100" |};
         {| date := "2024-06-01"; score := "" |};
         {| date := "2024-06-01"; score := "95/100" |} ].
Proof.
  assert (newestFirst (omap (@keptRow utcHost today) (odataToArray orderedInspections))) as Hs
    by (vm_compute; repeat constructor).
  split; [exact Hs|]. split; [reflexivity|].
  rewrite (@sorted_answer_keeps_its_order utcHost today orderedInspections Hs). reflexivity.
Defined.

(** ** The five-year window *)

Lemma civilOfDay_spec z :
  0 <= z ->
  let '(y, m, d) := JsDate.civilOfDay z in
  1970 <= y /\ 0 <= m <= 11 /\ JsDate.dayOfMonthStart y m + d - 1 = z.
Proof.
  intros Hz. unfold JsDate.civilOfDay, JsDate.dayOfMonthStart. cbv zeta.
  set (z' := z + 719468).
  set (era := z' / 146097).
  set (doe := z' - era * 146097).
  assert (0 <= doe < 146097) as Hdoe
    by (subst doe era; pose proof (Z.mod_pos_bound z' 146097 ltac:(lia));
        rewrite Z.mod_eq in * by lia; lia).
  assert (4 <= era) as Hera by (subst era z'; Z.div_mod_to_equations; lia).
  assert (era = 4 -> 135080 <= doe) as Hdoe4 by (subst doe z'; lia).
  set (yoe := (doe - doe / 1460 + doe / 36524 - doe / 146096) / 365).
  assert (0 <= yoe <= 399) as Hyoe by (subst yoe; Z.div_mod_to_equations; lia).
  assert (era = 4 -> 369 <= yoe) as Hyoe4
    by (intros E4; specialize (Hdoe4 E4); subst yoe; Z.div_mod_to_equations; lia).
  set (doy := doe - (365 * yoe + yoe / 4 - yoe / 100)).
  assert (0 <= doy <= 365) as Hdoy by (subst doy yoe; Z.div_mod_to_equations; lia).
  assert (era = 4 -> yoe = 369 -> 306 <= doy) as Hdoy4
    by (intros E4 E9; specialize (Hdoe4 E4); subst doy; rewrite E9;
        Z.div_mod_to_equations; lia).
  set (mp := (5 * doy + 2) / 153).
  assert (0 <= mp <= 11) as Hmp by (subst mp; Z.div_mod_to_equations; lia).
  assert (306 <= doy -> 10 <= mp) as Hmp4 by (intros; subst mp; Z.div_mod_to_equations; lia).
  destruct (mp <? 10) eqn:E.
  - apply Z.ltb_lt in E.
    replace (mp + 2 <? 2) with false by (symmetry; apply Z.ltb_ge; lia).
    replace ((mp + 2 + 10) mod 12) with mp by (Z.div_mod_to_equations; lia).
    replace ((yoe + era * 400 + 0) / 400) with era by (Z.div_mod_to_equations; lia).
    split; [lia|]. split; [lia|].
    subst doy z' doe. Z.div_mod_to_equations. lia.
  - apply Z.ltb_ge in E.
    replace (mp - 10 <? 2) with true by (symmetry; apply Z.ltb_lt; lia).
    replace ((mp - 10 + 10) mod 12) with mp by (Z.div_mod_to_equations; lia).
    replace ((yoe + era * 400 + 1 - 1) / 400) with era by (Z.div_mod_to_equations; lia).
    split; [lia|]. split; [lia|].
    subst doy z' doe. Z.div_mod_to_equations. lia.
Qed.

Lemma dayOfMonthStart_years y m k :
  0 <= k ->
  365 * k <= JsDate.dayOfMonthStart y m - JsDate.dayOfMonthStart (y - k) m <= 366 * k.
Proof.
  intros Hk. unfold JsDate.dayOfMonthStart. cbv zeta.
  destruct (m <? 2); Z.div_mod_to_equations; lia.
Qed.

Lemma cutoff_bounds now k :
  0 <= now -> 0 < k <= 1000 ->
  let cutoffUtcMs :=
    JsDate.UTC (JsDate.getUTCFullYear now - k) (JsDate.getUTCMonth now) (JsDate.getUTCDate now) in
  now - (366 * k + 1) * JsDate.msPerDay < cutoffUtcMs <= now - 365 * k * JsDate.msPerDay.
Proof.
  intros Hnow Hk. unfold JsDate.getUTCFullYear, JsDate.getUTCMonth, JsDate.getUTCDate.
  assert (0 <= now / JsDate.msPerDay) as Hz by (apply Z.div_pos; unfold JsDate.msPerDay; lia).
  pose proof (civilOfDay_spec _ Hz) as Hc.
  destruct (JsDate.civilOfDay (now / JsDate.msPerDay)) as [[y m] d]. simpl.
  destruct Hc as (Hy & Hm & Hd).
  unfold JsDate.UTC, JsDate.MakeDay.
  replace ((0 <=? y - k) && (y - k <=? 99)) with false
    by (symmetry; apply andb_false_iff; right; apply Z.leb_gt; lia).
  replace (m / 12) with 0 by (Z.div_mod_to_equations; lia).
  replace (m mod 12) with m by (Z.div_mod_to_equations; lia).
  rewrite Z.add_0_r.
  pose proof (dayOfMonthStart_years y m k ltac:(lia)) as Hdiff.
  unfold JsDate.msPerDay in *. Z.div_mod_to_equations. lia.
Qed.

Section Window.
Context `{Host}.

(** X17. The window of [isWithinLastYears]: the cut-off is midnight UTC of
    today's date [years] years ago ([0] years meaning 5), so for a current
    time after 1970 and up to 1000 years a date that parses to at most
    [365 * years] days before now is always within, and one more than
    [366 * years + 1] days before now never is. A missing, empty or
    unparseable date is never within. *)
Theorem window_of_isWithinLastYears (iso : string) (dt now years : Z) :
  Date_parse iso = Some dt ->
  iso <> "" ->
  0 <= now -> 0 <= years <= 1000 ->
  let y := if years =? 0 then 5 else years in
  (now - 365 * y * JsDate.msPerDay <= dt -> isWithinLastYears (Some iso) years now = true)
  /\ (dt < now - (366 * y + 1) * JsDate.msPerDay ->
      isWithinLastYears (Some iso) years now = false)
  /\ isWithinLastYears None years now = false
  /\ isWithinLastYears (Some "") years now = false
  /\ (forall bad, Date_parse bad = None -> isWithinLastYears (Some bad) years now = false).
Proof.
  intros Hp Hne Hnow Hy y.
  assert (0 < y <= 1000) as Hy' by (subst y; destruct (Z.eqb_spec years 0); lia).
  pose proof (cutoff_bounds now y Hnow Hy') as Hc. simpl in Hc.
  unfold isWithinLastYears. apply truthy_true in Hne. rewrite Hne, Hp. fold y. simpl.
  split; [intros Hd; apply Z.leb_le; lia|].
  split; [intros Hd; apply Z.leb_gt; lia|].
  split; [reflexivity|]. split; [reflexivity|].
  intros bad Hb. rewrite Hb. now destruct (negb (Js.truthy bad)).
Qed.

End Window.

Lemma X17_witness :
  @Date_parse utcHost "2022-01-01T00:00:00Z" = Some 1640995200000
  /\ "2022-01-01T00:00:00Z" <> ""
  /\ 0 <= today /\ 0 <= 5 <= 1000
  /\ today - 365 * 5 * JsDate.msPerDay <= 1640995200000
  /\ @isWithinLastYears utcHost (Some "2022-01-01T00:00:00Z") 5 today = true.
Proof.
  assert (0 <= today) as Hn by (unfold today; lia).
  assert (today - 365 * 5 * JsDate.msPerDay <= 1640995200000) as Hd
    by (unfold today, JsDate.msPerDay; lia).
  split; [reflexivity|]. split; [discriminate|]. split; [exact Hn|]. split; [lia|].
  split; [exact Hd|].
  destruct (@window_of_isWithinLastYears utcHost "2022-01-01T00:00:00Z" 1640995200000 today 5
              eq_refl ltac:(discriminate) Hn ltac:(lia)) as (W & _).
  exact (W Hd).
Defined.

(** ** The incidents URL *)

Example encodeURIComponent_ex :
  encodeURIComponent "a b&c='(x)" = "a%20b%26c%3D'(x)"
  /\ encodeURIComponent (String (ascii_of_N 233) "") = "%C3%A9".
Proof. split; reflexivity. Qed.

Example idExprOf_ex :
  idExprOf (Some "{6045bdf9-b010}") true = "6045bdf9-b010"
  /\ idExprOf (Some "{6045bdf9-b010}") false = "6045bdf9-b010"
  /\ idExprOf (Some "GUID'abc'") true = "GUIDabc"
  /\ idExprOf (Some "GUID'abc'") false = "abc".
Proof. repeat split; reflexivity. Qed.

Lemma removeQuotes_app a b : removeQuotes (a ++ b) = (removeQuotes a ++ removeQuotes b)%string.
Proof.
  induction a as [|x a IH]; [reflexivity|]. rewrite append_cons. cbn [removeQuotes].
  destruct (Ascii.eqb x "'"); [exact IH|]. now rewrite append_cons, IH.
Qed.

Lemma append_nil_r (a : string) : (a ++ "")%string = a.
Proof. induction a as [|x a IH]; [reflexivity|]. now rewrite append_cons, IH. Qed.

Lemma stripGuidPrefix_literal x : stripGuidPrefix ("guid'" ++ x) = x.
Proof. reflexivity. Qed.

Lemma idExprOf_literal vesselId : idExprOf vesselId true = removeQuotes (normalizeGuid vesselId).
Proof.
  unfold idExprOf, odataGuidLiteral. rewrite stripGuidPrefix_literal, removeQuotes_app.
  change (removeQuotes "'") with "". apply append_nil_r.
Qed.

(** X18. The retry after an HTTP 400 asks for the same URL: the [guid'...']
    wrapper of the first try is stripped again before the URL is built, so
    unless the normalised id itself begins with [guid] (in any case) both
    tries send an identical request. In either form the id reaches the
    filter without any quote. *)
Theorem retry_sends_the_same_url (vesselId : option string) :
  stripGuidPrefix (normalizeGuid vesselId) = normalizeGuid vesselId ->
  buildIncidentsUrlForVessel vesselId true = buildIncidentsUrlForVessel vesselId false
  /\ countChar "'" (idExprOf vesselId true) = 0%nat
  /\ countChar "'" (idExprOf vesselId false) = 0%nat.
Proof.
  intros Hs.
  assert (forall s, countChar "'" (removeQuotes s) = 0%nat) as Hq.
  { induction s as [|x s IH]; [reflexivity|]. cbn [removeQuotes].
    destruct (Ascii.eqb x "'") eqn:E; [exact IH|]. cbn [countChar]. now rewrite E, IH. }
  split; [|split; [rewrite idExprOf_literal; apply Hq|apply Hq]].
  unfold buildIncidentsUrlForVessel. rewrite idExprOf_literal.
  unfold idExprOf. now rewrite Hs.
Qed.

Lemma X18_witness :
  stripGuidPrefix (normalizeGuid (Some "{6045bdf9-b010}")) = normalizeGuid (Some "{6045bdf9-b010}")
  /\ buildIncidentsUrlForVessel (Some "{6045bdf9-b010}") true
     = buildIncidentsUrlForVessel (Some "{6045bdf9-b010}") false.
Proof.
  split; [reflexivity|].
  apply (retry_sends_the_same_url (Some "{6045bdf9-b010}")). reflexivity.
Defined.

Lemma countChar_app c a b : countChar c (a ++ b) = (countChar c a + countChar c b)%nat.
Proof.
  induction a as [|x a IH]; [reflexivity|]. rewrite append_cons. cbn [countChar].
  rewrite IH. lia.
Qed.

Lemma allChars_app f a b : allChars f (a ++ b) = allChars f a && allChars f b.
Proof.
  induction a as [|x a IH]; [reflexivity|]. rewrite append_cons. cbn [allChars].
  now rewrite IH, andb_assoc.
Qed.

Lemma encodeChar_safe c : allChars isQuerySafe (encodeChar c) = true.
Proof. destruct c as [[] [] [] [] [] [] [] []]; reflexivity. Qed.

Lemma encodeURIComponent_safe s : allChars isQuerySafe (encodeURIComponent s) = true.
Proof.
  induction s as [|c s IH]; [reflexivity|]. cbn [encodeURIComponent].
  now rewrite allChars_app, encodeChar_safe, IH.
Qed.

Lemma countChar_safe c s :
  isQuerySafe c = false -> allChars isQuerySafe s = true -> countChar c s = 0%nat.
Proof.
  intros Hc. induction s as [|x s IH]; [reflexivity|]. cbn [allChars countChar].
  intros [Hx Hs]%andb_true_iff. rewrite (IH Hs).
  destruct (Ascii.eqb x c) eqn:E; [|reflexivity].
  apply Ascii.eqb_eq in E. subst x. congruence.
Qed.

(** X19. A vessel id cannot change the shape of the request: whatever the
    id, the encoded filter holds only unreserved characters and percent
    escapes, and the URL has exactly its three [&], one [?], no [#] and no
    space. *)
Theorem url_shape_is_fixed (vesselId : option string) (useGuidLiteral : bool) :
  let url := buildIncidentsUrlForVessel vesselId useGuidLiteral in
  allChars isQuerySafe
    (encodeURIComponent (incidentsFilter (idExprOf vesselId useGuidLiteral))) = true
  /\ countChar "&" url = 3%nat
  /\ countChar "?" url = 1%nat
  /\ countChar "#" url = 0%nat
  /\ countChar " " url = 0%nat.
Proof.
  intros url. subst url. unfold buildIncidentsUrlForVessel.
  set (f := encodeURIComponent (incidentsFilter (idExprOf vesselId useGuidLiteral))).
  pose proof (encodeURIComponent_safe (incidentsFilter (idExprOf vesselId useGuidLiteral)))
    as Hf. fold f in Hf.
  split; [exact Hf|].
  rewrite !countChar_app.
  rewrite !(countChar_safe _ f) by (reflexivity || exact Hf).
  repeat split; reflexivity.
Qed.

(** ** Grouping the vessels of the catalog *)

Lemma shipOf_addVessel map r o n :
  shipOf (addVessel map r) o n
  = if complete r && String.eqb (ownerNameOf r) o && String.eqb (shipNameOf r) n
    then Some (metaOf r) else shipOf map o n.
Proof.
  unfold addVessel, complete, shipOf.
  destruct (Js.truthy (ownerNameOf r)); simpl; [|reflexivity].
  destruct (Js.truthy (shipNameOf r)); simpl; [|reflexivity].
  destruct (Js.truthy (vesselIdOf r)); simpl; [|reflexivity].
  destruct (String.eqb_spec (ownerNameOf r) o) as [<-|Ho]; simpl.
  - rewrite lookup_insert_eq.
    destruct (String.eqb_spec (shipNameOf r) n) as [<-|Hn].
    + now rewrite lookup_insert_eq.
    + rewrite lookup_insert_ne by assumption.
      destruct (map !! ownerNameOf r); [reflexivity|apply lookup_empty].
  - now rewrite lookup_insert_ne.
Qed.

Lemma shipOf_fold_skip rows : forall map o n,
  (forall r, In r rows -> complete r = true -> ownerNameOf r = o -> shipNameOf r = n -> False) ->
  shipOf (fold_left addVessel rows map) o n = shipOf map o n.
Proof.
  induction rows as [|r rows IH]; intros map o n Hno; [reflexivity|]. simpl.
  rewrite IH by (intros r' Hr'; apply Hno; now right).
  rewrite shipOf_addVessel.
  destruct (complete r) eqn:Hc; [|reflexivity].
  destruct (String.eqb_spec (ownerNameOf r) o) as [Ho|]; [|reflexivity].
  destruct (String.eqb_spec (shipNameOf r) n) as [Hn|]; [|reflexivity].
  exfalso. eapply (Hno r); eauto. now left.
Qed.

Lemma shipOf_fold_sound rows : forall map o n m,
  shipOf (fold_left addVessel rows map) o n = Some m ->
  shipOf map o n = Some m
  \/ exists r, In r rows /\ complete r = true
       /\ ownerNameOf r = o /\ shipNameOf r = n /\ metaOf r = m.
Proof.
  induction rows as [|r rows IH]; intros map o n m Hm; [now left|]. simpl in Hm.
  destruct (IH _ _ _ _ Hm) as [Hm'|(r' & Hin & Hr')].
  - rewrite shipOf_addVessel in Hm'.
    destruct (complete r) eqn:Hc; [|now left].
    destruct (String.eqb_spec (ownerNameOf r) o) as [Ho|]; [|now left].
    destruct (String.eqb_spec (shipNameOf r) n) as [Hn|]; [|now left].
    simpl in Hm'. right. exists r. repeat split; auto; [now left|congruence].
  - right. exists r'. split; [now right|exact Hr'].
Qed.

(** X20. Grouping the catalog: a row is used only if its owner name, ship
    name and vessel id are all non-empty after trimming and normalising;
    among the rows that name the same ship of the same owner the last one
    wins. *)
Theorem last_complete_row_wins (pre post : list (option Vessel)) (r : option Vessel) :
  complete r = true ->
  (forall r', In r' post -> complete r' = true -> sameShip r r' = false) ->
  shipOf (groupVessels (pre ++ r :: post)) (ownerNameOf r) (shipNameOf r) = Some (metaOf r).
Proof.
  intros Hc Hpost. unfold groupVessels. rewrite fold_left_app. simpl.
  rewrite shipOf_fold_skip.
  - rewrite shipOf_addVessel, Hc, !String.eqb_refl. reflexivity.
  - intros r' Hin Hc' Ho Hn. specialize (Hpost r' Hin Hc').
    unfold sameShip in Hpost. now rewrite Ho, Hn, !String.eqb_refl in Hpost.
Qed.

Lemma trimmedOrEmpty_trimmed x : Js.trim (trimmedOrEmpty x) = trimmedOrEmpty x.
Proof.
  unfold trimmedOrEmpty. destruct x as [n|]; [|reflexivity].
  destruct (Js.truthy n); [apply trim_idem|reflexivity].
Qed.

(** X21. What the grouped catalog holds: every ship in it comes from a row
    that was not skipped; its owner name and ship name are non-empty and
    trimmed, and its vessel id is non-empty and free of braces. *)
Theorem grouped_ship_is_well_formed
    (rows : list (option Vessel)) (ownerName shipName : string) (m : ShipMeta) :
  shipOf (groupVessels rows) ownerName shipName = Some m ->
  (exists r, In r rows /\ complete r = true /\ ownerNameOf r = ownerName
             /\ shipNameOf r = shipName /\ metaOf r = m)
  /\ ownerName <> "" /\ Js.trim ownerName = ownerName
  /\ shipName <> "" /\ Js.trim shipName = shipName
  /\ vesselId m <> "" /\ noBraces (vesselId m) = true.
Proof.
  intros Hm. destruct (shipOf_fold_sound _ _ _ _ _ Hm) as [He|(r & Hin & Hc & Ho & Hn & Hmeta)].
  { unfold shipOf in He. rewrite lookup_empty in He. discriminate. }
  split; [exists r; auto|].
  unfold complete in Hc. apply andb_true_iff in Hc as [[H1 H2]%andb_true_iff H3].
  apply truthy_true in H1, H2, H3. subst ownerName shipName m. simpl.
  repeat split; auto.
  - destruct r as [v|]; [|reflexivity]. simpl. destruct (ethi_OwnerId v); [|reflexivity].
    apply trimmedOrEmpty_trimmed.
  - destruct r as [v|]; [|reflexivity]. apply trimmedOrEmpty_trimmed.
  - destruct r as [v|]; [|reflexivity]. simpl. destruct (ethi_vesselid v) as [g|]; [|reflexivity].
    destruct (Js.truthy g); [apply noBraces_stripBraces|reflexivity].
Qed.

Lemma X20_witness :
  let r := vesselRow "GroupX" " Ship1" " {shipA} " in
  complete r = true
  /\ shipOf (groupVessels exampleVessels) "GroupX" "Ship1"
     = Some {| vesselId := "shipA"; weight := "3" |}.
Proof.
  intros r. split; [reflexivity|].
  apply (last_complete_row_wins
           [vesselRow " GroupX " "Ship1" "{old-id}"; vesselRow "GroupX" "Ship2" "shipB"]
           [vesselRow "GroupY" "" "shipC"; None] r eq_refl).
  intros r' [<-|[<-|[]]]; discriminate.
Defined.

Lemma X21_witness :
  shipOf (groupVessels exampleVessels) "GroupX" "Ship2"
  = Some {| vesselId := "shipB"; weight := "3" |}
  /\ noBraces "shipB" = true.
Proof.
  assert (shipOf (groupVessels exampleVessels) "GroupX" "Ship2"
          = Some {| vesselId := "shipB"; weight := "3" |}) as Hm
    by (vm_compute; reflexivity).
  split; [exact Hm|].
  destruct (grouped_ship_is_well_formed exampleVessels "GroupX" "Ship2" _ Hm)
    as (_ & _ & _ & _ & _ & _ & W).
  exact W.
Defined.

(** ** Which events change the tree *)

Lemma tree_load raw s : tree (snd (loadInspectionHistoryForVessel raw s)) = tree s.
Proof.
  unfold loadInspectionHistoryForVessel.
  destruct (negb (Js.truthy (normalizeGuid raw))); [reflexivity|].
  destruct (__InspectionCache s !! normalizeGuid raw) as [e|]; [|reflexivity].
  destruct (loaded e); [reflexivity|]. now destruct (loading e), (promise e).
Qed.

Lemma map_alter_same {A B} (g : A -> B) (f : A -> A) (l : list A) : forall i,
  (forall x, g (f x) = g x) -> map g (alter f i l) = map g l.
Proof.
  intros i Hf. revert i. induction l as [|x l IH]; intros [|i]; try reflexivity.
  - change (alter f 0%nat (x :: l)) with (f x :: l). simpl. now rewrite Hf.
  - change (alter f (S i) (x :: l)) with (x :: alter f i l). simpl. now rewrite IH.
Qed.

Lemma linerToggleListener_flags liner :
  liner_visible (linerToggleListener liner) = liner_visible liner
  /\ liner_label (linerToggleListener liner) = liner_label liner
  /\ map ship_visible (liner_ships (linerToggleListener liner))
     = map ship_visible (liner_ships liner)
  /\ map (fun ship => (ship_label ship, ship_vessel_id ship))
         (liner_ships (linerToggleListener liner))
     = map (fun ship => (ship_label ship, ship_vessel_id ship)) (liner_ships liner).
Proof.
  unfold linerToggleListener. destruct (negb (liner_open liner)); simpl; [|auto].
  rewrite !map_map. auto.
Qed.

Lemma fireLinerToggles_flags before : forall after,
  visibility (fireLinerToggles before after) = visibility after
  /\ shape (fireLinerToggles before after) = shape after.
Proof.
  induction before as [|b bs IH]; intros [|a rest]; try (split; reflexivity).
  cbn [fireLinerToggles]. destruct (IH rest) as [IH1 IH2].
  unfold visibility, shape in *. cbn [map]. rewrite IH1, IH2.
  destruct (Bool.eqb (liner_open b) (liner_open a)); [auto|].
  destruct (linerToggleListener_flags a) as (-> & -> & -> & ->). auto.
Qed.

Section TreeChanges.
Context `{Host}.

Lemma tree_httpSettled k outcome now s : tree (httpSettled k outcome now s) = tree s.
Proof.
  unfold httpSettled. destruct (requests s !! k) as [r|]; [|reflexivity].
  destruct (negb (req_pending r)); [reflexivity|].
  destruct outcome as [data|st]; [reflexivity|].
  now destruct (req_guidLiteral r && (st =? 400)).
Qed.

Lemma tree_settleToggles before s :
  tree (settleToggles before s) = fireLinerToggles before (tree s).
Proof.
  unfold settleToggles.
  apply (fireShipTogglesIn_rel (fun a b => tree b = tree a)).
  - reflexivity.
  - intros a b c Hab Hbc. congruence.
  - intros s0 raw. apply tree_load.
Qed.

(** X22. Only the filter changes what is visible, and only the user's
    toggles and the filter change the tree at all: a toggle keeps every
    [display] and every node as it is, and a call of the load function or an
    arriving answer leaves the whole tree untouched, so a fetch that
    completes for a hidden ship changes the cache only. *)
Theorem only_the_filter_changes_visibility (ev : Event) (s : State) :
  isFilterEvent ev = false ->
  visibility (tree (step ev s)) = visibility (tree s)
  /\ shape (tree (step ev s)) = shape (tree s)
  /\ (isToggleEvent ev = false -> tree (step ev s) = tree s).
Proof.
  intros Hev. destruct ev as [i|i j|raw|raw|k o now]; try discriminate; cbn [step].
  - rewrite tree_settleToggles. cbn [tree setTree].
    destruct (fireLinerToggles_flags (tree s) (alter flipLiner i (tree s))) as [-> ->].
    unfold visibility, shape. rewrite !map_alter_same by reflexivity.
    repeat split. discriminate.
  - rewrite tree_settleToggles. cbn [tree setTree].
    destruct (fireLinerToggles_flags (tree s)
                (alter (fun liner => setLinerShips (alter flipShip j (liner_ships liner)) liner)
                       i (tree s))) as [-> ->].
    unfold visibility, shape.
    rewrite !map_alter_same; [repeat split; discriminate| |];
      intros x; simpl; f_equal; now apply map_alter_same.
  - rewrite tree_load. auto.
  - rewrite tree_httpSettled. auto.
Qed.

End TreeChanges.

Lemma X22_witness :
  isFilterEvent (EvHttp 0 (HttpOk twoInspections) today) = false
  /\ tree (@step utcHost (EvHttp 0 (HttpOk twoInspections) today)
             (@step utcHost (EvFilter "ship2") shipAloading))
     = tree (@step utcHost (EvFilter "ship2") shipAloading).
Proof.
  split; [reflexivity|].
  destruct (@only_the_filter_changes_visibility utcHost (EvHttp 0 (HttpOk twoInspections) today)
              (@step utcHost (EvFilter "ship2") shipAloading) eq_refl) as (_ & _ & W).
  exact (W eq_refl).
Defined.
